(** * EcoBin: the storage layer ([DatabaseStorage]) as functions on a database state

    The server-side storage module issues one or more SQL statements per
    method through a query builder.  Here a database is a record of tables,
    a table is the list of its rows in insertion order, and every method of
    [DatabaseStorage] is a function in a small state-and-exception monad:
    a thrown error keeps whatever the earlier statements of the method wrote,
    because no method opens a transaction.

    The table declarations ([@shared/schema]) are not part of the sources at
    hand.  Rows carry the columns the methods mention; column defaults are a
    parameter ([Defaults]); integer columns are unbounded and nullable
    ([option Z], [None] for SQL NULL), which covers a stricter schema too;
    foreign keys are not modelled. *)

From Stdlib Require Import ZArith Ascii String DecimalString.
From Stdlib Require DecimalZ DecimalPos.
From stdpp Require Import base option list sorting gmap strings.

Open Scope string_scope.
Open Scope list_scope.
Open Scope Z_scope.

(** ** Values: SQL NULL arithmetic and JavaScript's [x || 0] *)

(** [col + n] and [col - n] inside a [sql] template: NULL stays NULL. *)
Definition sql_add (col : option Z) (n : Z) : option Z := (λ v, v + n) <$> col.
Definition sql_sub (col : option Z) (n : Z) : option Z := (λ v, v - n) <$> col.

(** [x || 0] on a [number | null | undefined]: every falsy value gives 0. *)
Definition or_zero (x : option Z) : Z :=
  match x with
  | Some v => if v =? 0 then 0 else v
  | None => 0
  end.

(** [x || d] on a [string | null | undefined]: the empty string is falsy. *)
Definition or_string (x : option string) (d : string) : string :=
  match x with
  | Some s => if String.eqb s "" then d else s
  | None => d
  end.

(** A column of an [insert] that the caller left out takes its default. *)
Definition or_default {A} (given dflt : option A) : option A :=
  match given with
  | Some v => Some v
  | None => dflt
  end.

(** A key of a [set] object whose value is [undefined] is skipped. *)
Definition set_if_given {A} (given current : option A) : option A :=
  match given with
  | Some v => Some v
  | None => current
  end.

(** A key of a [values] or [set] object that may be there or not: the value
    it carries when it is there ([null] included), and [otherwise] (the
    column default, or the stored value) when it is [undefined]. *)
Definition if_defined {A} (given : option A) (otherwise : A) : A :=
  match given with
  | Some v => v
  | None => otherwise
  end.

(** Comparison of a nullable column with a value: NULL satisfies nothing. *)
Definition sql_gte (col : option Z) (v : Z) : bool :=
  match col with Some c => v <=? c | None => false end.
Definition sql_lte (col : option Z) (v : Z) : bool :=
  match col with Some c => c <=? v | None => false end.
Definition sql_eq_string (col : option string) (v : string) : bool :=
  match col with Some c => String.eqb c v | None => false end.

(** Sort order of a nullable column: NULL sorts as the largest value. *)
Definition null_last_le (a b : option Z) : bool :=
  match a, b with
  | Some x, Some y => x <=? y
  | _, None => true
  | None, Some _ => false
  end.

(** ** Rows *)

Module User.
Record t := mk {
  id : string;
  email : option string;
  ecoPoints : option Z;
  carbonFootprint : option string;
  updatedAt : option Z }.
End User.

(** An optional column of [UpsertUser]: [None] when the key is absent
    ([undefined]), [Some None] when it is [null], [Some (Some v)] for a
    value. *)
Module UpsertUser.
Record t := mk {
  id : string;
  email : option (option string);
  ecoPoints : option (option Z);
  carbonFootprint : option (option string) }.
End UpsertUser.

Module WasteEntry.
Record t := mk {
  id : Z;
  userId : string;
  wasteType : string;
  quantity : string;
  ecoPointsEarned : option Z;
  createdAt : option Z }.
End WasteEntry.

Module InsertWasteEntry.
Record t := mk {
  userId : string;
  wasteType : string;
  quantity : string;
  ecoPointsEarned : option Z }.
End InsertWasteEntry.

Module PickupSchedule.
Record t := mk {
  id : Z;
  userId : string;
  scheduledDate : Z;
  status : option string;
  completedAt : option Z }.
End PickupSchedule.

Module InsertPickupSchedule.
Record t := mk {
  userId : string;
  scheduledDate : Z;
  status : option string }.
End InsertPickupSchedule.

Module CommunityReport.
Record t := mk {
  id : Z;
  reportType : string;
  description : string;
  location : string;
  priority : option string;
  status : option string;
  createdAt : option Z;
  resolvedAt : option Z }.
End CommunityReport.

Module InsertCommunityReport.
Record t := mk {
  reportType : string;
  description : string;
  location : string;
  priority : option string;
  status : option string }.
End InsertCommunityReport.

Module CleanupEvent.
Record t := mk {
  id : Z;
  eventDate : Z;
  maxParticipants : option Z;
  currentParticipants : option Z;
  ecoPointsReward : option Z;
  status : option string }.
End CleanupEvent.

Module InsertCleanupEvent.
Record t := mk {
  eventDate : Z;
  maxParticipants : option Z;
  currentParticipants : option Z;
  ecoPointsReward : option Z;
  status : option string }.
End InsertCleanupEvent.

Module EventParticipant.
Record t := mk {
  eventId : Z;
  userId : string;
  joinedAt : option Z }.
End EventParticipant.

Module EcoChallenge.
Record t := mk {
  id : Z;
  isActive : bool;
  endDate : option Z }.
End EcoChallenge.

Module UserChallengeProgress.
Record t := mk {
  userId : string;
  challengeId : Z;
  currentProgress : option Z;
  createdAt : option Z }.
End UserChallengeProgress.

Module Reward.
Record t := mk {
  id : Z;
  ecoPointsCost : Z;
  isActive : bool;
  validUntil : option Z }.
End Reward.

Module UserReward.
Record t := mk {
  id : Z;
  userId : string;
  rewardId : Z;
  redemptionCode : string;
  expiresAt : option Z;
  redeemedAt : option Z }.
End UserReward.

(** Column defaults of the schema; a timestamp default may read the clock. *)
Record Defaults := {
  user_ecoPoints : option Z;
  user_carbonFootprint : option string;
  user_updatedAt : Z → option Z;
  wasteEntry_ecoPointsEarned : option Z;
  wasteEntry_createdAt : Z → option Z;
  pickupSchedule_status : option string;
  communityReport_priority : option string;
  communityReport_status : option string;
  communityReport_createdAt : Z → option Z;
  cleanupEvent_currentParticipants : option Z;
  cleanupEvent_status : option string;
  eventParticipant_joinedAt : Z → option Z;
  userChallengeProgress_createdAt : Z → option Z;
  userReward_redeemedAt : Z → option Z }.

(** ** The database *)

Record DB := {
  users : list User.t;
  wasteEntries : list WasteEntry.t;
  pickupSchedules : list PickupSchedule.t;
  communityReports : list CommunityReport.t;
  cleanupEvents : list CleanupEvent.t;
  eventParticipants : list EventParticipant.t;
  ecoChallenges : list EcoChallenge.t;
  userChallengeProgress : list UserChallengeProgress.t;
  rewards : list Reward.t;
  userRewards : list UserReward.t }.

Definition with_users (t : list User.t) (db : DB) : DB :=
  {| users := t; wasteEntries := wasteEntries db;
     pickupSchedules := pickupSchedules db;
     communityReports := communityReports db;
     cleanupEvents := cleanupEvents db;
     eventParticipants := eventParticipants db;
     ecoChallenges := ecoChallenges db;
     userChallengeProgress := userChallengeProgress db;
     rewards := rewards db; userRewards := userRewards db |}.

Definition with_wasteEntries (t : list WasteEntry.t) (db : DB) : DB :=
  {| users := users db; wasteEntries := t;
     pickupSchedules := pickupSchedules db;
     communityReports := communityReports db;
     cleanupEvents := cleanupEvents db;
     eventParticipants := eventParticipants db;
     ecoChallenges := ecoChallenges db;
     userChallengeProgress := userChallengeProgress db;
     rewards := rewards db; userRewards := userRewards db |}.

Definition with_pickupSchedules (t : list PickupSchedule.t) (db : DB) : DB :=
  {| users := users db; wasteEntries := wasteEntries db;
     pickupSchedules := t;
     communityReports := communityReports db;
     cleanupEvents := cleanupEvents db;
     eventParticipants := eventParticipants db;
     ecoChallenges := ecoChallenges db;
     userChallengeProgress := userChallengeProgress db;
     rewards := rewards db; userRewards := userRewards db |}.

Definition with_communityReports (t : list CommunityReport.t) (db : DB) : DB :=
  {| users := users db; wasteEntries := wasteEntries db;
     pickupSchedules := pickupSchedules db;
     communityReports := t;
     cleanupEvents := cleanupEvents db;
     eventParticipants := eventParticipants db;
     ecoChallenges := ecoChallenges db;
     userChallengeProgress := userChallengeProgress db;
     rewards := rewards db; userRewards := userRewards db |}.

Definition with_cleanupEvents (t : list CleanupEvent.t) (db : DB) : DB :=
  {| users := users db; wasteEntries := wasteEntries db;
     pickupSchedules := pickupSchedules db;
     communityReports := communityReports db;
     cleanupEvents := t;
     eventParticipants := eventParticipants db;
     ecoChallenges := ecoChallenges db;
     userChallengeProgress := userChallengeProgress db;
     rewards := rewards db; userRewards := userRewards db |}.

Definition with_eventParticipants (t : list EventParticipant.t) (db : DB) : DB :=
  {| users := users db; wasteEntries := wasteEntries db;
     pickupSchedules := pickupSchedules db;
     communityReports := communityReports db;
     cleanupEvents := cleanupEvents db;
     eventParticipants := t;
     ecoChallenges := ecoChallenges db;
     userChallengeProgress := userChallengeProgress db;
     rewards := rewards db; userRewards := userRewards db |}.

Definition with_userChallengeProgress
    (t : list UserChallengeProgress.t) (db : DB) : DB :=
  {| users := users db; wasteEntries := wasteEntries db;
     pickupSchedules := pickupSchedules db;
     communityReports := communityReports db;
     cleanupEvents := cleanupEvents db;
     eventParticipants := eventParticipants db;
     ecoChallenges := ecoChallenges db;
     userChallengeProgress := t;
     rewards := rewards db; userRewards := userRewards db |}.

Definition with_userRewards (t : list UserReward.t) (db : DB) : DB :=
  {| users := users db; wasteEntries := wasteEntries db;
     pickupSchedules := pickupSchedules db;
     communityReports := communityReports db;
     cleanupEvents := cleanupEvents db;
     eventParticipants := eventParticipants db;
     ecoChallenges := ecoChallenges db;
     userChallengeProgress := userChallengeProgress db;
     rewards := rewards db; userRewards := t |}.

(** ** The monad of a storage method

    A method runs against the database and either returns a value or throws
    an [Error] with a message; in both cases the database is what the
    statements executed so far left behind. *)

Inductive Outcome (A : Type) : Type :=
  | Returned (a : A)
  | Thrown (message : string).
Arguments Returned {A} a.
Arguments Thrown {A} message.

Definition Storage (A : Type) : Type := DB → Outcome A * DB.

Definition ret {A} (a : A) : Storage A := λ db, (Returned a, db).

Definition bind {A B} (m : Storage A) (k : A → Storage B) : Storage B :=
  λ db, match m db with
        | (Returned a, db') => k a db'
        | (Thrown msg, db') => (Thrown msg, db')
        end.

Definition throw {A} (message : string) : Storage A :=
  λ db, (Thrown message, db).

Notation "'let*' x ':=' m 'in' k" := (bind m (λ x, k))
  (at level 10, x name, m at level 100, k at level 200).
Notation "m ';;;' k" := (bind m (λ _, k))
  (at level 100, k at level 200, right associativity).

(** ** Statements *)

(** [db.select().from(tbl).where(cond)]: the matching rows, in table order. *)
Definition select_from {R} (tbl : DB → list R) (cond : R → bool)
  : Storage (list R) :=
  λ db, (Returned (List.filter cond (tbl db)), db).

(** [UPDATE ... SET ... WHERE cond] on the rows of one table. *)
Definition update_rows {R} (cond : R → bool) (set : R → R) (rows : list R)
  : list R :=
  (λ r, if cond r then set r else r) <$> rows.

(** [db.update(tbl).set(..).where(cond).returning()]: writes the table and
    returns the rows it changed, as they are after the change. *)
Definition update_where {R} (tbl : DB → list R) (put : list R → DB → DB)
    (cond : R → bool) (set : R → R) : Storage (list R) :=
  λ db, (Returned (set <$> List.filter cond (tbl db)),
         put (update_rows cond set (tbl db)) db).

(** [db.insert(tbl).values(row).returning()]: appends the row. *)
Definition insert_into {R} (tbl : DB → list R) (put : list R → DB → DB)
    (row : R) : Storage (list R) :=
  λ db, (Returned [row], put (tbl db ++ [row]) db).

(** [.onConflictDoNothing()]: the row is appended unless a stored row
    conflicts with it, in which case nothing is written or returned. *)
Definition insert_or_nothing {R} (tbl : DB → list R) (put : list R → DB → DB)
    (conflict : R → R → bool) (row : R) : Storage (list R) :=
  λ db, if existsb (conflict row) (tbl db)
        then (Returned [], db)
        else insert_into tbl put row db.

(** [.onConflictDoUpdate({target, set})]: the row is appended unless a stored
    row agrees with it on the target columns; then that row is updated. *)
Definition insert_or_update {R} (tbl : DB → list R) (put : list R → DB → DB)
    (conflict : R → R → bool) (set : R → R) (row : R) : Storage (list R) :=
  λ db, if existsb (conflict row) (tbl db)
        then update_where tbl put (conflict row) set db
        else insert_into tbl put row db.

(** The value a serial primary key takes for the next row. *)
Definition next_id (ids : list Z) : Z := 1 + foldr Z.max 0 ids.

(** [orderBy(col)] and [orderBy(desc(col))] on a nullable column. *)
Definition order_by {R} (col : R → option Z) (rows : list R) : list R :=
  merge_sort (λ a b, Is_true (null_last_le (col a) (col b))) rows.
Definition order_by_desc {R} (col : R → option Z) (rows : list R) : list R :=
  merge_sort (λ a b, Is_true (null_last_le (col b) (col a))) rows.

(** [db.insert(tbl).values(..).returning()] on a table with a serial [id]:
    the row is built from the id the sequence hands out, and appended. *)
Definition insert_serial {R} (tbl : DB → list R) (put : list R → DB → DB)
    (id : R → Z) (mk : Z → R) : Storage R :=
  λ db, let row := mk (next_id (id <$> tbl db)) in
        (Returned row, put (tbl db ++ [row]) db).

(** The upsert that returns its row: the updated row on conflict, the
    inserted one otherwise. *)
Definition upsert_returning {R} (tbl : DB → list R) (put : list R → DB → DB)
    (conflict : R → R → bool) (set : R → R) (row : R) : Storage R :=
  λ db, match List.find (conflict row) (tbl db) with
        | Some old =>
            (Returned (set old), put (update_rows (conflict row) set (tbl db)) db)
        | None => (Returned row, put (tbl db ++ [row]) db)
        end.

(** ** Strings of the redemption code *)

(** [String.prototype.toUpperCase] on one ASCII character. *)
Definition upper_ascii (c : ascii) : ascii :=
  let n := nat_of_ascii c in
  if ((97 <=? n) && (n <=? 122))%nat then ascii_of_nat (n - 32) else c.

Fixpoint toUpperCase (s : string) : string :=
  match s with
  | EmptyString => EmptyString
  | String c rest => String (upper_ascii c) (toUpperCase rest)
  end.

Fixpoint string_drop (n : nat) (s : string) : string :=
  match n, s with
  | O, _ => s
  | S n', EmptyString => EmptyString
  | S n', String _ rest => string_drop n' rest
  end.

Fixpoint string_take (n : nat) (s : string) : string :=
  match n, s with
  | O, _ => EmptyString
  | S n', EmptyString => EmptyString
  | S n', String c rest => String c (string_take n' rest)
  end.

(** [s.substr(start, length)] for non-negative arguments: at most [length]
    characters from index [start]; fewer, or none, when [s] is short. *)
Definition substr (start length : nat) (s : string) : string :=
  string_take length (string_drop start s).

(** A number in a template literal: [Date.now()] is an integer, printed in
    decimal. *)
Definition number_to_string (n : Z) : string :=
  NilZero.string_of_int (Z.to_int n).

(** The template
    [`ECO-${Date.now()}-${Math.random().toString(36).substr(2, 6).toUpperCase()}`];
    [now] is the clock reading and [random36] the text
    [Math.random().toString(36)] of the draw. *)
Definition redemptionCode (now : Z) (random36 : string) : string :=
  "ECO-" +:+ number_to_string now +:+ "-" +:+ toUpperCase (substr 2 6 random36).

(** What [Number.prototype.toString(36)] can print for a number of [[0, 1)]:
    ["0"], or ["0."] and at least one digit of [0-9a-z]. *)
Definition is_digit36 (c : ascii) : bool :=
  let n := nat_of_ascii c in
  (((48 <=? n) && (n <=? 57)) || ((97 <=? n) && (n <=? 122)))%nat.

Fixpoint all_chars (p : ascii → bool) (s : string) : bool :=
  match s with
  | EmptyString => true
  | String c rest => p c && all_chars p rest
  end.

Definition is_random36 (s : string) : bool :=
  match s with
  | String "0" EmptyString => true
  | String "0" (String "." (String c rest)) => is_digit36 c && all_chars is_digit36 rest
  | _ => false
  end.

(** An uppercase letter or a digit. *)
Definition is_upper_alnum (c : ascii) : bool :=
  let n := nat_of_ascii c in
  (((48 <=? n) && (n <=? 57)) || ((65 <=? n) && (n <=? 90)))%nat.

Definition is_decimal_digit (c : ascii) : bool :=
  let n := nat_of_ascii c in ((48 <=? n) && (n <=? 57))%nat.

(** ** The accumulator object of the analytics

    [getUserAnalytics] adds quantities up in an object literal [{}] used as
    a map.  Such an object has the properties of [Object.prototype] besides
    its own, so a key that names one of them does not read as [undefined]. *)

(** What the object holds under a key of its own: a number, or the text
    that [+] makes once its left operand is not a number. *)
Inductive Stored (num : Type) : Type :=
  | Number (n : num)
  | Text (s : string).
Arguments Number {num} n.
Arguments Text {num} s.

(** The names of the function-valued properties of [Object.prototype],
    [constructor] apart. *)
Definition inherited_methods : list string :=
  ["__defineGetter__"; "__defineSetter__"; "hasOwnProperty";
   "__lookupGetter__"; "__lookupSetter__"; "isPrototypeOf";
   "propertyIsEnumerable"; "toString"; "valueOf"; "toLocaleString"].

(** The text an inherited property turns into as the left operand of [+]
    with a number: [__proto__] reads as the prototype object, [constructor]
    as the function [Object], and a native function prints as Node prints
    it.  [None] for a name that [{}] does not inherit. *)
Definition inherited_text (key : string) : option string :=
  if String.eqb key "__proto__" then Some "[object Object]"
  else if String.eqb key "constructor"
       then Some "function Object() { [native code] }"
  else if existsb (String.eqb key) inherited_methods
       then Some ("function " +:+ key +:+ "() { [native code] }")
  else None.

(** ** The methods of [DatabaseStorage]

    [now] stands for the [new Date()] or [Date.now()] a method evaluates. *)

Section DatabaseStorage.
Context (dflt : Defaults).

(** *** User operations *)

Definition getUser (id : string) : Storage (option User.t) :=
  let* rows := select_from users (λ u, String.eqb (User.id u) id) in
  ret (head rows).

Definition upsertUser (now : Z) (userData : UpsertUser.t) : Storage User.t :=
  upsert_returning users with_users
    (λ new old, String.eqb (User.id old) (User.id new))
    (λ old,
       {| User.id := UpsertUser.id userData;
          User.email := if_defined (UpsertUser.email userData) (User.email old);
          User.ecoPoints :=
            if_defined (UpsertUser.ecoPoints userData) (User.ecoPoints old);
          User.carbonFootprint :=
            if_defined (UpsertUser.carbonFootprint userData)
                       (User.carbonFootprint old);
          User.updatedAt := Some now |})
    {| User.id := UpsertUser.id userData;
       User.email := if_defined (UpsertUser.email userData) None;
       User.ecoPoints :=
         if_defined (UpsertUser.ecoPoints userData) (user_ecoPoints dflt);
       User.carbonFootprint :=
         if_defined (UpsertUser.carbonFootprint userData)
                    (user_carbonFootprint dflt);
       User.updatedAt := user_updatedAt dflt now |}.

(** *** Waste entry operations *)

(** [set({ ecoPoints: sql`${users.ecoPoints} + ${n}` })] *)
Definition add_ecoPoints (n : Z) (u : User.t) : User.t :=
  {| User.id := User.id u; User.email := User.email u;
     User.ecoPoints := sql_add (User.ecoPoints u) n;
     User.carbonFootprint := User.carbonFootprint u;
     User.updatedAt := User.updatedAt u |}.

(** [set({ ecoPoints: sql`${users.ecoPoints} - ${n}` })] *)
Definition sub_ecoPoints (n : Z) (u : User.t) : User.t :=
  {| User.id := User.id u; User.email := User.email u;
     User.ecoPoints := sql_sub (User.ecoPoints u) n;
     User.carbonFootprint := User.carbonFootprint u;
     User.updatedAt := User.updatedAt u |}.

Definition createWasteEntry (now : Z) (entry : InsertWasteEntry.t)
  : Storage WasteEntry.t :=
  let* wasteEntry :=
    insert_serial wasteEntries with_wasteEntries WasteEntry.id
      (λ id, {| WasteEntry.id := id;
                WasteEntry.userId := InsertWasteEntry.userId entry;
                WasteEntry.wasteType := InsertWasteEntry.wasteType entry;
                WasteEntry.quantity := InsertWasteEntry.quantity entry;
                WasteEntry.ecoPointsEarned :=
                  or_default (InsertWasteEntry.ecoPointsEarned entry)
                             (wasteEntry_ecoPointsEarned dflt);
                WasteEntry.createdAt := wasteEntry_createdAt dflt now |}) in
  (* Update user's eco points *)
  update_where users with_users
    (λ u, String.eqb (User.id u) (InsertWasteEntry.userId entry))
    (add_ecoPoints (or_zero (InsertWasteEntry.ecoPointsEarned entry))) ;;;
  ret wasteEntry.

Definition getUserWasteEntries (userId : string)
  : Storage (list WasteEntry.t) :=
  let* rows :=
    select_from wasteEntries (λ e, String.eqb (WasteEntry.userId e) userId) in
  ret (order_by_desc WasteEntry.createdAt rows).

Definition getWasteEntriesByDateRange (userId : string) (startDate endDate : Z)
  : Storage (list WasteEntry.t) :=
  let* rows :=
    select_from wasteEntries
      (λ e, String.eqb (WasteEntry.userId e) userId
            && sql_gte (WasteEntry.createdAt e) startDate
            && sql_lte (WasteEntry.createdAt e) endDate) in
  ret (order_by_desc WasteEntry.createdAt rows).

(** *** Pickup schedule operations *)

Definition createPickupSchedule (schedule : InsertPickupSchedule.t)
  : Storage PickupSchedule.t :=
  insert_serial pickupSchedules with_pickupSchedules PickupSchedule.id
    (λ id, {| PickupSchedule.id := id;
              PickupSchedule.userId := InsertPickupSchedule.userId schedule;
              PickupSchedule.scheduledDate :=
                InsertPickupSchedule.scheduledDate schedule;
              PickupSchedule.status :=
                or_default (InsertPickupSchedule.status schedule)
                           (pickupSchedule_status dflt);
              PickupSchedule.completedAt := None |}).

Definition getUserPickupSchedules (userId : string)
  : Storage (list PickupSchedule.t) :=
  let* rows :=
    select_from pickupSchedules
      (λ s, String.eqb (PickupSchedule.userId s) userId) in
  ret (order_by_desc (λ s, Some (PickupSchedule.scheduledDate s)) rows).

Definition updatePickupScheduleStatus (now : Z) (id : Z) (status : string)
  : Storage (option PickupSchedule.t) :=
  let* rows :=
    update_where pickupSchedules with_pickupSchedules
      (λ s, PickupSchedule.id s =? id)
      (λ s, {| PickupSchedule.id := PickupSchedule.id s;
               PickupSchedule.userId := PickupSchedule.userId s;
               PickupSchedule.scheduledDate := PickupSchedule.scheduledDate s;
               PickupSchedule.status := Some status;
               PickupSchedule.completedAt :=
                 set_if_given
                   (if String.eqb status "completed" then Some now else None)
                   (PickupSchedule.completedAt s) |}) in
  ret (head rows).

(** *** Community operations *)

Definition createCommunityReport (now : Z) (report : InsertCommunityReport.t)
  : Storage CommunityReport.t :=
  insert_serial communityReports with_communityReports CommunityReport.id
    (λ id, {| CommunityReport.id := id;
              CommunityReport.reportType :=
                InsertCommunityReport.reportType report;
              CommunityReport.description :=
                InsertCommunityReport.description report;
              CommunityReport.location := InsertCommunityReport.location report;
              CommunityReport.priority :=
                or_default (InsertCommunityReport.priority report)
                           (communityReport_priority dflt);
              CommunityReport.status :=
                or_default (InsertCommunityReport.status report)
                           (communityReport_status dflt);
              CommunityReport.createdAt := communityReport_createdAt dflt now;
              CommunityReport.resolvedAt := None |}).

(** [limit = 50] is the default of the parameter. *)
Definition getCommunityReports (limit : option nat)
  : Storage (list CommunityReport.t) :=
  let* rows := select_from communityReports (λ _, true) in
  ret (take (default 50%nat limit)
            (order_by_desc CommunityReport.createdAt rows)).

Definition updateCommunityReportStatus (now : Z) (id : Z) (status : string)
  : Storage (option CommunityReport.t) :=
  let* rows :=
    update_where communityReports with_communityReports
      (λ r, CommunityReport.id r =? id)
      (λ r, {| CommunityReport.id := CommunityReport.id r;
               CommunityReport.reportType := CommunityReport.reportType r;
               CommunityReport.description := CommunityReport.description r;
               CommunityReport.location := CommunityReport.location r;
               CommunityReport.priority := CommunityReport.priority r;
               CommunityReport.status := Some status;
               CommunityReport.createdAt := CommunityReport.createdAt r;
               CommunityReport.resolvedAt :=
                 set_if_given
                   (if String.eqb status "resolved" then Some now else None)
                   (CommunityReport.resolvedAt r) |}) in
  ret (head rows).

(** *** Cleanup events *)

Definition createCleanupEvent (event : InsertCleanupEvent.t)
  : Storage CleanupEvent.t :=
  insert_serial cleanupEvents with_cleanupEvents CleanupEvent.id
    (λ id, {| CleanupEvent.id := id;
              CleanupEvent.eventDate := InsertCleanupEvent.eventDate event;
              CleanupEvent.maxParticipants :=
                InsertCleanupEvent.maxParticipants event;
              CleanupEvent.currentParticipants :=
                or_default (InsertCleanupEvent.currentParticipants event)
                           (cleanupEvent_currentParticipants dflt);
              CleanupEvent.ecoPointsReward :=
                InsertCleanupEvent.ecoPointsReward event;
              CleanupEvent.status :=
                or_default (InsertCleanupEvent.status event)
                           (cleanupEvent_status dflt) |}).

Definition getUpcomingCleanupEvents (now : Z) : Storage (list CleanupEvent.t) :=
  let* rows :=
    select_from cleanupEvents
      (λ e, sql_eq_string (CleanupEvent.status e) "upcoming"
            && (now <=? CleanupEvent.eventDate e)) in
  ret (order_by (λ e, Some (CleanupEvent.eventDate e)) rows).

(** Modelled from the spec: the unique key of [eventParticipants], declared
    in the schema.  The join is "idempotent" by "conflict-skip", so a row
    conflicts with a stored row for the same (eventId, userId). *)
Definition same_participant (new old : EventParticipant.t) : bool :=
  (EventParticipant.eventId old =? EventParticipant.eventId new)
  && String.eqb (EventParticipant.userId old) (EventParticipant.userId new).

(** [set({ currentParticipants: sql`${cleanupEvents.currentParticipants} + 1` })] *)
Definition add_participant (e : CleanupEvent.t) : CleanupEvent.t :=
  {| CleanupEvent.id := CleanupEvent.id e;
     CleanupEvent.eventDate := CleanupEvent.eventDate e;
     CleanupEvent.maxParticipants := CleanupEvent.maxParticipants e;
     CleanupEvent.currentParticipants :=
       sql_add (CleanupEvent.currentParticipants e) 1;
     CleanupEvent.ecoPointsReward := CleanupEvent.ecoPointsReward e;
     CleanupEvent.status := CleanupEvent.status e |}.

Definition joinCleanupEvent (now : Z) (eventId : Z) (userId : string)
  : Storage unit :=
  insert_or_nothing eventParticipants with_eventParticipants same_participant
    {| EventParticipant.eventId := eventId;
       EventParticipant.userId := userId;
       EventParticipant.joinedAt := eventParticipant_joinedAt dflt now |} ;;;
  (* Update participant count *)
  update_where cleanupEvents with_cleanupEvents
    (λ e, CleanupEvent.id e =? eventId) add_participant ;;;
  ret tt.

(** *** Challenges *)

Definition getActiveChallenges : Storage (list EcoChallenge.t) :=
  let* rows := select_from ecoChallenges (λ c, EcoChallenge.isActive c) in
  ret (order_by EcoChallenge.endDate rows).

Definition getUserChallengeProgress (userId : string)
  : Storage (list UserChallengeProgress.t) :=
  let* rows :=
    select_from userChallengeProgress
      (λ p, String.eqb (UserChallengeProgress.userId p) userId) in
  ret (order_by_desc UserChallengeProgress.createdAt rows).

(** [target: [userChallengeProgress.userId, userChallengeProgress.challengeId]] *)
Definition same_progress_key (new old : UserChallengeProgress.t) : bool :=
  String.eqb (UserChallengeProgress.userId old) (UserChallengeProgress.userId new)
  && (UserChallengeProgress.challengeId old =? UserChallengeProgress.challengeId new).

(** [set({ currentProgress: sql`${userChallengeProgress.currentProgress} + ${n}` })] *)
Definition add_progress (n : Z) (p : UserChallengeProgress.t)
  : UserChallengeProgress.t :=
  {| UserChallengeProgress.userId := UserChallengeProgress.userId p;
     UserChallengeProgress.challengeId := UserChallengeProgress.challengeId p;
     UserChallengeProgress.currentProgress :=
       sql_add (UserChallengeProgress.currentProgress p) n;
     UserChallengeProgress.createdAt := UserChallengeProgress.createdAt p |}.

Definition updateChallengeProgress (now : Z) (userId : string)
    (challengeId : Z) (progress : Z) : Storage unit :=
  insert_or_update userChallengeProgress with_userChallengeProgress
    same_progress_key (add_progress progress)
    {| UserChallengeProgress.userId := userId;
       UserChallengeProgress.challengeId := challengeId;
       UserChallengeProgress.currentProgress := Some progress;
       UserChallengeProgress.createdAt :=
         userChallengeProgress_createdAt dflt now |} ;;;
  ret tt.

(** *** Rewards *)

Definition getAvailableRewards : Storage (list Reward.t) :=
  let* rows := select_from rewards (λ r, Reward.isActive r) in
  ret (order_by (λ r, Some (Reward.ecoPointsCost r)) rows).

Definition redeemReward (now : Z) (random36 : string)
    (userId : string) (rewardId : Z) : Storage UserReward.t :=
  let* found := select_from rewards (λ r, Reward.id r =? rewardId) in
  match head found with
  | None => throw "Reward not found"
  | Some reward =>
      let* found := select_from users (λ u, String.eqb (User.id u) userId) in
      match head found with
      | None => throw "Insufficient EcoPoints"
      | Some user =>
          if or_zero (User.ecoPoints user) <? Reward.ecoPointsCost reward
          then throw "Insufficient EcoPoints"
          else
            (* Deduct points from user *)
            update_where users with_users
              (λ u, String.eqb (User.id u) userId)
              (sub_ecoPoints (Reward.ecoPointsCost reward)) ;;;
            (* Create user reward *)
            insert_serial userRewards with_userRewards UserReward.id
              (λ id, {| UserReward.id := id;
                        UserReward.userId := userId;
                        UserReward.rewardId := rewardId;
                        UserReward.redemptionCode := redemptionCode now random36;
                        UserReward.expiresAt := Reward.validUntil reward;
                        UserReward.redeemedAt := userReward_redeemedAt dflt now |})
      end
  end.

Definition getUserRewards (userId : string) : Storage (list UserReward.t) :=
  let* rows :=
    select_from userRewards (λ r, String.eqb (UserReward.userId r) userId) in
  ret (order_by_desc UserReward.redeemedAt rows).

(** *** Analytics

    The numbers of the aggregation are JavaScript numbers.  The method is
    modelled over any type [num] of numbers with its zero, its addition, its
    truthiness test (for [x || 0]), its [parseFloat] and the text [toText]
    a number gets when it is appended to a string. *)

Context {num : Type} (zero : num) (add : num → num → num)
        (truthy : num → bool) (parseFloat : string → num)
        (toText : num → string).

Record Analytics := {
  totalWasteEntries : nat;
  totalEcoPoints : Z;
  wasteByType : gmap string (Stored num);
  carbonFootprint : num }.

(** [acc[key] || 0], the left operand of the [+]: the value under the key
    when it is truthy, [0] when it is falsy or [undefined].  A key the
    object does not hold itself reads as the property it inherits, which is
    an object or a function, truthy, and stands here as its text. *)
Definition or_zero_operand (acc : gmap string (Stored num)) (key : string)
  : Stored num :=
  match acc !! key with
  | Some (Number n) => if truthy n then Number n else Number zero
  | Some (Text s) => if String.eqb s "" then Number zero else Text s
  | None =>
      match inherited_text key with
      | Some text => Text text
      | None => Number zero
      end
  end.

(** [left + x] for a number [x]: the sum of two numbers, and the
    concatenation of texts when [left] is not a number. *)
Definition plus (left : Stored num) (x : num) : Stored num :=
  match left with
  | Number n => Number (add n x)
  | Text s => Text (s +:+ toText x)
  end.

(** [acc[key] = value] for a number or a text: [__proto__] is a setter that
    ignores such a value; any other key becomes a property of the object. *)
Definition assign (acc : gmap string (Stored num)) (key : string)
    (value : Stored num) : gmap string (Stored num) :=
  if String.eqb key "__proto__" then acc else <[key := value]> acc.

(** The body of the [reduce] callback. *)
Definition tally (acc : gmap string (Stored num)) (entry : WasteEntry.t)
  : gmap string (Stored num) :=
  assign acc (WasteEntry.wasteType entry)
    (plus (or_zero_operand acc (WasteEntry.wasteType entry))
          (parseFloat (WasteEntry.quantity entry))).

Definition getUserAnalytics (userId : string) : Storage Analytics :=
  let* found := select_from users (λ u, String.eqb (User.id u) userId) in
  let user := head found in
  let* wasteEntriesData :=
    select_from wasteEntries (λ e, String.eqb (WasteEntry.userId e) userId) in
  let wasteByType := foldl tally ∅ wasteEntriesData in
  ret {| totalWasteEntries := length wasteEntriesData;
         totalEcoPoints := or_zero (user ≫= User.ecoPoints);
         wasteByType := wasteByType;
         carbonFootprint :=
           parseFloat (or_string (user ≫= User.carbonFootprint) "0") |}.

(** ** Calls

    One constructor per method of [IStorage], with the clock reading and the
    random draw of the call where the method uses them. *)

Inductive Call : Type :=
  | CallGetUser (id : string)
  | CallUpsertUser (now : Z) (userData : UpsertUser.t)
  | CallCreateWasteEntry (now : Z) (entry : InsertWasteEntry.t)
  | CallGetUserWasteEntries (userId : string)
  | CallGetWasteEntriesByDateRange (userId : string) (startDate endDate : Z)
  | CallCreatePickupSchedule (schedule : InsertPickupSchedule.t)
  | CallGetUserPickupSchedules (userId : string)
  | CallUpdatePickupScheduleStatus (now : Z) (id : Z) (status : string)
  | CallCreateCommunityReport (now : Z) (report : InsertCommunityReport.t)
  | CallGetCommunityReports (limit : option nat)
  | CallUpdateCommunityReportStatus (now : Z) (id : Z) (status : string)
  | CallCreateCleanupEvent (event : InsertCleanupEvent.t)
  | CallGetUpcomingCleanupEvents (now : Z)
  | CallJoinCleanupEvent (now : Z) (eventId : Z) (userId : string)
  | CallGetActiveChallenges
  | CallGetUserChallengeProgress (userId : string)
  | CallUpdateChallengeProgress (now : Z) (userId : string) (challengeId progress : Z)
  | CallGetAvailableRewards
  | CallRedeemReward (now : Z) (random36 : string) (userId : string) (rewardId : Z)
  | CallGetUserRewards (userId : string)
  | CallGetUserAnalytics (userId : string).

(** The database a call leaves behind, whether it returns or throws. *)
Definition after (c : Call) (db : DB) : DB :=
  match c with
  | CallGetUser id => (getUser id db).2
  | CallUpsertUser now userData => (upsertUser now userData db).2
  | CallCreateWasteEntry now entry => (createWasteEntry now entry db).2
  | CallGetUserWasteEntries userId => (getUserWasteEntries userId db).2
  | CallGetWasteEntriesByDateRange userId s e =>
      (getWasteEntriesByDateRange userId s e db).2
  | CallCreatePickupSchedule schedule => (createPickupSchedule schedule db).2
  | CallGetUserPickupSchedules userId => (getUserPickupSchedules userId db).2
  | CallUpdatePickupScheduleStatus now id status =>
      (updatePickupScheduleStatus now id status db).2
  | CallCreateCommunityReport now report => (createCommunityReport now report db).2
  | CallGetCommunityReports limit => (getCommunityReports limit db).2
  | CallUpdateCommunityReportStatus now id status =>
      (updateCommunityReportStatus now id status db).2
  | CallCreateCleanupEvent event => (createCleanupEvent event db).2
  | CallGetUpcomingCleanupEvents now => (getUpcomingCleanupEvents now db).2
  | CallJoinCleanupEvent now eventId userId =>
      (joinCleanupEvent now eventId userId db).2
  | CallGetActiveChallenges => (getActiveChallenges db).2
  | CallGetUserChallengeProgress userId => (getUserChallengeProgress userId db).2
  | CallUpdateChallengeProgress now userId challengeId progress =>
      (updateChallengeProgress now userId challengeId progress db).2
  | CallGetAvailableRewards => (getAvailableRewards db).2
  | CallRedeemReward now random36 userId rewardId =>
      (redeemReward now random36 userId rewardId db).2
  | CallGetUserRewards userId => (getUserRewards userId db).2
  | CallGetUserAnalytics userId => (getUserAnalytics userId db).2
  end.

End DatabaseStorage.

(** ** Reading a database state *)

(** The row [select().from(users).where(eq(users.id, userId))] puts first. *)
Definition user_row (userId : string) (db : DB) : option User.t :=
  head (List.filter (λ u, String.eqb (User.id u) userId) (users db)).

Definition reward_row (rewardId : Z) (db : DB) : option Reward.t :=
  head (List.filter (λ r, Reward.id r =? rewardId) (rewards db)).

Definition event_row (eventId : Z) (db : DB) : option CleanupEvent.t :=
  head (List.filter (λ e, CleanupEvent.id e =? eventId) (cleanupEvents db)).

Definition report_row (id : Z) (db : DB) : option CommunityReport.t :=
  head (List.filter (λ r, CommunityReport.id r =? id) (communityReports db)).

(** The participant rows of a pair (eventId, userId). *)
Definition participant_rows (eventId : Z) (userId : string) (db : DB)
  : list EventParticipant.t :=
  List.filter
    (λ p, (EventParticipant.eventId p =? eventId)
          && String.eqb (EventParticipant.userId p) userId)
    (eventParticipants db).

(** The progress rows of a key (userId, challengeId). *)
Definition progress_rows (userId : string) (challengeId : Z) (db : DB)
  : list UserChallengeProgress.t :=
  List.filter
    (λ p, String.eqb (UserChallengeProgress.userId p) userId
          && (UserChallengeProgress.challengeId p =? challengeId))
    (userChallengeProgress db).

(** The waste entries of a user, and those of one waste type among them. *)
Definition entries_of (userId : string) (db : DB) : list WasteEntry.t :=
  List.filter (λ e, String.eqb (WasteEntry.userId e) userId) (wasteEntries db).

Definition of_type (wasteType : string) (entries : list WasteEntry.t)
  : list WasteEntry.t :=
  List.filter (λ e, String.eqb (WasteEntry.wasteType e) wasteType) entries.

(** The row [redeemReward] inserts when it gets that far. *)
Definition redeemed_row (dflt : Defaults) (now : Z) (random36 : string)
    (userId : string) (rewardId : Z) (reward : Reward.t) (db : DB)
  : UserReward.t :=
  {| UserReward.id := next_id (UserReward.id <$> userRewards db);
     UserReward.userId := userId;
     UserReward.rewardId := rewardId;
     UserReward.redemptionCode := redemptionCode now random36;
     UserReward.expiresAt := Reward.validUntil reward;
     UserReward.redeemedAt := userReward_redeemedAt dflt now |}.


(** The shape ECO-<timestamp>-<suffix> of a redemption code whose suffix has
    exactly [n] characters, each an uppercase letter or a digit. *)
Definition has_code_format (n : nat) (code : string) : Prop :=
  ∃ timestamp suffix,
    code = "ECO-" +:+ timestamp +:+ "-" +:+ suffix
    ∧ String.length suffix = n
    ∧ all_chars is_upper_alnum suffix = true.

(** ** A small database to run the methods on *)

Definition sample_defaults : Defaults :=
  {| user_ecoPoints := Some 0;
     user_carbonFootprint := Some "0";
     user_updatedAt := Some;
     wasteEntry_ecoPointsEarned := Some 0;
     wasteEntry_createdAt := Some;
     pickupSchedule_status := Some "scheduled";
     communityReport_priority := Some "medium";
     communityReport_status := Some "reported";
     communityReport_createdAt := Some;
     cleanupEvent_currentParticipants := Some 0;
     cleanupEvent_status := Some "upcoming";
     eventParticipant_joinedAt := Some;
     userChallengeProgress_createdAt := Some;
     userReward_redeemedAt := Some |}.

Definition alice : User.t :=
  {| User.id := "alice"; User.email := Some "alice@example.org";
     User.ecoPoints := Some 120; User.carbonFootprint := Some "12";
     User.updatedAt := Some 1000 |}.

Definition bob : User.t :=
  {| User.id := "bob"; User.email := None;
     User.ecoPoints := Some 10; User.carbonFootprint := None;
     User.updatedAt := None |}.

Definition plastic (id : Z) (quantity : string) : WasteEntry.t :=
  {| WasteEntry.id := id; WasteEntry.userId := "alice";
     WasteEntry.wasteType := "plastic"; WasteEntry.quantity := quantity;
     WasteEntry.ecoPointsEarned := Some 5; WasteEntry.createdAt := Some 2000 |}.

Definition sample_db : DB :=
  {| users := [alice; bob];
     wasteEntries :=
       [plastic 1 "2";
        {| WasteEntry.id := 2; WasteEntry.userId := "bob";
           WasteEntry.wasteType := "glass"; WasteEntry.quantity := "4";
           WasteEntry.ecoPointsEarned := Some 1;
           WasteEntry.createdAt := Some 2100 |};
        plastic 3 "3"];
     pickupSchedules := [];
     communityReports :=
       [{| CommunityReport.id := 1; CommunityReport.reportType := "overflow";
           CommunityReport.description := "bin is full";
           CommunityReport.location := "Main St";
           CommunityReport.priority := Some "high";
           CommunityReport.status := Some "resolved";
           CommunityReport.createdAt := Some 1500;
           CommunityReport.resolvedAt := Some 1900 |}];
     cleanupEvents :=
       [{| CleanupEvent.id := 7; CleanupEvent.eventDate := 9000;
           CleanupEvent.maxParticipants := Some 20;
           CleanupEvent.currentParticipants := Some 3;
           CleanupEvent.ecoPointsReward := Some 50;
           CleanupEvent.status := Some "upcoming" |}];
     eventParticipants := [];
     ecoChallenges := [];
     userChallengeProgress :=
       [{| UserChallengeProgress.userId := "alice";
           UserChallengeProgress.challengeId := 4;
           UserChallengeProgress.currentProgress := Some 5;
           UserChallengeProgress.createdAt := Some 1200 |}];
     rewards :=
       [{| Reward.id := 1; Reward.ecoPointsCost := 50;
           Reward.isActive := true; Reward.validUntil := Some 99000 |}];
     userRewards := [] |}.

(** [parseFloat] on the text of an integer, for runs over [Z]. *)
Definition parse_integer (s : string) : Z :=
  match NilZero.int_of_string s with
  | Some i => Z.of_int i
  | None => 0
  end.

(** ** Sums of quantities *)

(** The quantities of a list of entries added up from zero, in the order of
    the list. *)
Definition sum_quantities {num} (zero : num) (add : num → num → num)
    (parseFloat : string → num) (entries : list WasteEntry.t) : num :=
  foldl (λ total e, add total (parseFloat (WasteEntry.quantity e))) zero entries.

(** No running total of the entries is a falsy value other than the number
    zero; for JavaScript numbers: no running total is NaN. *)
Definition totals_are_numbers {num} (zero : num) (add : num → num → num)
    (truthy : num → bool) (parseFloat : string → num)
    (entries : list WasteEntry.t) : Prop :=
  ∀ k, truthy (sum_quantities zero add parseFloat (take k entries)) = false →
       sum_quantities zero add parseFloat (take k entries) = zero.

(** ** Rows that stay *)

(** Every row of [old] is still in [new], at its place and under its key;
    [new] may have more rows after them, and other columns may differ. *)
Definition rows_kept {R K} (key : R → K) (old new : list R) : Prop :=
  (key <$> old) `prefix_of` (key <$> new).

Definition no_row_deleted (old new : DB) : Prop :=
  rows_kept User.id (users old) (users new)
  ∧ rows_kept WasteEntry.id (wasteEntries old) (wasteEntries new)
  ∧ rows_kept PickupSchedule.id (pickupSchedules old) (pickupSchedules new)
  ∧ rows_kept CommunityReport.id (communityReports old) (communityReports new)
  ∧ rows_kept CleanupEvent.id (cleanupEvents old) (cleanupEvents new)
  ∧ rows_kept (λ p, (EventParticipant.eventId p, EventParticipant.userId p))
      (eventParticipants old) (eventParticipants new)
  ∧ rows_kept EcoChallenge.id (ecoChallenges old) (ecoChallenges new)
  ∧ rows_kept
      (λ p, (UserChallengeProgress.userId p, UserChallengeProgress.challengeId p))
      (userChallengeProgress old) (userChallengeProgress new)
  ∧ rows_kept Reward.id (rewards old) (rewards new)
  ∧ rows_kept UserReward.id (userRewards old) (userRewards new).

(** The database after a sequence of calls, one after the other. *)
Definition after_all {num} (dflt : Defaults) (zero : num)
    (add : num → num → num) (truthy : num → bool) (parseFloat : string → num)
    (toText : num → string) (calls : list Call) (db : DB) : DB :=
  foldl (λ db c, after dflt zero add truthy parseFloat toText c db) db calls.

(** ** The lifecycle of a community report *)

(** One step of reported → investigating → resolved. *)
Definition lifecycle_step (from to : string) : bool :=
  (String.eqb from "reported" && String.eqb to "investigating")
  || (String.eqb from "investigating" && String.eqb to "resolved").

(** Every change of status that [updateCommunityReportStatus] makes is a
    step of the lifecycle. *)
Definition status_changes_follow_lifecycle : Prop :=
  ∀ now id status db report report' from to,
    report_row id db = Some report →
    CommunityReport.status report = Some from →
    report_row id (updateCommunityReportStatus now id status db).2 = Some report' →
    CommunityReport.status report' = Some to →
    from ≠ to →
    lifecycle_step from to = true.

(** ** Orders of the sorted queries *)

(** [a] may come before [b] under [orderBy(col)], NULL last. *)
Definition ascending {R} (col : R → option Z) : relation R :=
  λ a b, Is_true (null_last_le (col a) (col b)).

(** [a] may come before [b] under [orderBy(desc(col))], NULL first. *)
Definition descending {R} (col : R → option Z) : relation R :=
  λ a b, Is_true (null_last_le (col b) (col a)).

(** ** More readers of a database state *)

Definition schedule_row (id : Z) (db : DB) : option PickupSchedule.t :=
  head (List.filter (λ s, PickupSchedule.id s =? id) (pickupSchedules db)).

(** The participant rows of one event. *)
Definition participants_of (eventId : Z) (db : DB) : list EventParticipant.t :=
  List.filter (λ p, EventParticipant.eventId p =? eventId) (eventParticipants db).


(** ** Keys

    The keys under which rows are stored: the declared primary key of
    [users], the serial ids, and the conflict targets of the two upserts. *)
Definition unique_keys (db : DB) : Prop :=
  NoDup (User.id <$> users db)
  ∧ NoDup (WasteEntry.id <$> wasteEntries db)
  ∧ NoDup (PickupSchedule.id <$> pickupSchedules db)
  ∧ NoDup (CommunityReport.id <$> communityReports db)
  ∧ NoDup (CleanupEvent.id <$> cleanupEvents db)
  ∧ NoDup ((λ p, (EventParticipant.eventId p, EventParticipant.userId p))
             <$> eventParticipants db)
  ∧ NoDup (EcoChallenge.id <$> ecoChallenges db)
  ∧ NoDup ((λ p, (UserChallengeProgress.userId p,
                  UserChallengeProgress.challengeId p))
             <$> userChallengeProgress db)
  ∧ NoDup (Reward.id <$> rewards db)
  ∧ NoDup (UserReward.id <$> userRewards db).

(** ** More sample rows *)

Definition completed_pickup : PickupSchedule.t :=
  {| PickupSchedule.id := 1; PickupSchedule.userId := "alice";
     PickupSchedule.scheduledDate := 8000;
     PickupSchedule.status := Some "completed";
     PickupSchedule.completedAt := Some 7000 |}.

Definition full_event : CleanupEvent.t :=
  {| CleanupEvent.id := 8; CleanupEvent.eventDate := 9500;
     CleanupEvent.maxParticipants := Some 2;
     CleanupEvent.currentParticipants := Some 2;
     CleanupEvent.ecoPointsReward := Some 30;
     CleanupEvent.status := Some "upcoming" |}.

Definition busy_db : DB :=
  with_pickupSchedules [completed_pickup]
    (with_cleanupEvents (cleanupEvents sample_db ++ [full_event]) sample_db).

(** ** Waste types that name inherited properties *)

Definition odd_entry (id : Z) (wasteType quantity : string) : WasteEntry.t :=
  {| WasteEntry.id := id; WasteEntry.userId := "carol";
     WasteEntry.wasteType := wasteType; WasteEntry.quantity := quantity;
     WasteEntry.ecoPointsEarned := Some 1; WasteEntry.createdAt := Some 2500 |}.

Definition odd_db : DB :=
  with_wasteEntries
    [odd_entry 1 "constructor" "2"; odd_entry 2 "__proto__" "3";
     odd_entry 3 "paper" "4"; odd_entry 4 "constructor" "5"]
    sample_db.

(** A text followed by the texts of the parsed quantities of a list of
    entries, one after the other. *)
Definition with_quantity_texts {num} (parseFloat : string → num)
    (toText : num → string) (start : string) (entries : list WasteEntry.t)
  : string :=
  foldl (λ text e, text +:+ toText (parseFloat (WasteEntry.quantity e)))
        start entries.
(** ** General facts about the statements *)

Lemma filter_update_rows_same {R} (cond : R → bool) (set : R → R) rows :
  (∀ r, cond (set r) = cond r) →
  List.filter cond (update_rows cond set rows) = set <$> List.filter cond rows.
Proof.
  intros Hkeep. unfold update_rows.
  induction rows as [|r rows IH]; [reflexivity|].
  cbn. destruct (cond r) eqn:Hc.
  - rewrite Hkeep, Hc. cbn. by rewrite <- IH.
  - rewrite Hc. apply IH.
Qed.

Lemma filter_update_rows_other {R} (cond other : R → bool) (set : R → R) rows :
  (∀ r, cond r = true → other r = false) →
  (∀ r, cond r = true → other (set r) = false) →
  List.filter other (update_rows cond set rows) = List.filter other rows.
Proof.
  intros Hdisj Hset. unfold update_rows.
  induction rows as [|r rows IH]; [reflexivity|].
  cbn. destruct (cond r) eqn:Hc.
  - rewrite (Hset _ Hc), (Hdisj _ Hc). apply IH.
  - destruct (other r); by rewrite IH.
Qed.

Lemma update_rows_length {R} (cond : R → bool) (set : R → R) rows :
  length (update_rows cond set rows) = length rows.
Proof. unfold update_rows. apply length_fmap. Qed.

Lemma or_zero_default (x : option Z) : or_zero x = default 0 x.
Proof.
  destruct x as [v|]; [|reflexivity]. cbn.
  destruct (Z.eqb_spec v 0); congruence.
Qed.

Lemma next_id_fresh (ids : list Z) (i : Z) : i ∈ ids → i < next_id ids.
Proof.
  unfold next_id. induction ids as [|j ids IH]; intros Hin.
  - by apply elem_of_nil in Hin.
  - apply elem_of_cons in Hin as [->|Hin]; cbn; [lia|].
    specialize (IH Hin). lia.
Qed.

(** ** [redeemReward] *)

Lemma redeemReward_run dflt now random36 userId rewardId db :
  redeemReward dflt now random36 userId rewardId db =
  match reward_row rewardId db with
  | None => (Thrown "Reward not found", db)
  | Some reward =>
      match user_row userId db with
      | None => (Thrown "Insufficient EcoPoints", db)
      | Some user =>
          if or_zero (User.ecoPoints user) <? Reward.ecoPointsCost reward
          then (Thrown "Insufficient EcoPoints", db)
          else
            let row := redeemed_row dflt now random36 userId rewardId reward db in
            (Returned row,
             with_userRewards (userRewards db ++ [row])
               (with_users
                  (update_rows (λ u, String.eqb (User.id u) userId)
                     (sub_ecoPoints (Reward.ecoPointsCost reward)) (users db))
                  db))
      end
  end.
Proof.
  unfold redeemReward, reward_row, user_row, bind, select_from, throw.
  destruct (head (List.filter _ (rewards db))) as [reward|]; [|reflexivity].
  destruct (head (List.filter _ (users db))) as [user|]; [|reflexivity].
  destruct (_ <? _); reflexivity.
Qed.

Lemma user_row_after_update userId (set : User.t → User.t) db :
  (∀ u, User.id (set u) = User.id u) →
  user_row userId
    (with_users (update_rows (λ u, String.eqb (User.id u) userId) set (users db)) db)
  = set <$> user_row userId db.
Proof.
  intros Hid. unfold user_row. cbn.
  rewrite filter_update_rows_same by (intros u; by rewrite Hid).
  by destruct (List.filter _ (users db)).
Qed.

Lemma user_row_other_after_update userId other (set : User.t → User.t) db :
  other ≠ userId →
  (∀ u, User.id (set u) = User.id u) →
  user_row other
    (with_users (update_rows (λ u, String.eqb (User.id u) userId) set (users db)) db)
  = user_row other db.
Proof.
  intros Hne Hid. unfold user_row. cbn.
  rewrite filter_update_rows_other; [done| |].
  - intros u Hu. apply String.eqb_eq in Hu. apply String.eqb_neq. congruence.
  - intros u Hu. apply String.eqb_eq in Hu. rewrite Hid.
    apply String.eqb_neq. congruence.
Qed.

(** C1. For every userId and rewardId, [redeemReward] throws
    "Reward not found" when no reward row has the id; throws
    "Insufficient EcoPoints" when the user row is missing or the user's
    ecoPoints (read as [ecoPoints || 0]) is below the reward's
    ecoPointsCost; and otherwise deducts exactly ecoPointsCost from that
    user's ecoPoints, leaves every other user alone, and returns the
    UserReward row it has just appended under a fresh id.  The second and
    third case are those of a reward that exists: the reward is read first. *)
Theorem redeemReward_outcomes dflt now random36 userId rewardId db :
  let result := redeemReward dflt now random36 userId rewardId db in
  (reward_row rewardId db = None → result.1 = Thrown "Reward not found")
  ∧ (∀ reward,
       reward_row rewardId db = Some reward →
       (user_row userId db = None
        ∨ ∃ user, user_row userId db = Some user
                  ∧ or_zero (User.ecoPoints user) < Reward.ecoPointsCost reward) →
       result.1 = Thrown "Insufficient EcoPoints")
  ∧ (∀ reward user,
       reward_row rewardId db = Some reward →
       user_row userId db = Some user →
       Reward.ecoPointsCost reward ≤ or_zero (User.ecoPoints user) →
       ∃ userReward user',
         result.1 = Returned userReward
         ∧ user_row userId result.2 = Some user'
         ∧ user' = sub_ecoPoints (Reward.ecoPointsCost reward) user
         ∧ (∀ p, User.ecoPoints user = Some p →
                 User.ecoPoints user' = Some (p - Reward.ecoPointsCost reward))
         ∧ (∀ other, other ≠ userId →
                     user_row other result.2 = user_row other db)
         ∧ userRewards result.2 = userRewards db ++ [userReward]
         ∧ (∀ r, r ∈ userRewards db → UserReward.id r < UserReward.id userReward)
         ∧ UserReward.userId userReward = userId
         ∧ UserReward.rewardId userReward = rewardId).
Proof.
  cbn zeta. rewrite redeemReward_run. split; [|split].
  - by intros ->.
  - intros reward -> [-> | (user & -> & Hlt)]; [reflexivity|].
    apply Z.ltb_lt in Hlt. by rewrite Hlt.
  - intros reward user Hr Hu Hle. rewrite Hr, Hu.
    apply Z.ltb_ge in Hle. rewrite Hle. cbn zeta.
    set (cost := Reward.ecoPointsCost reward).
    set (db1 := with_users _ db).
    assert (Hrow : user_row userId db1 = Some (sub_ecoPoints cost user)).
    { subst db1. rewrite user_row_after_update by reflexivity. by rewrite Hu. }
    eexists _, (sub_ecoPoints cost user).
    split; [reflexivity|]. cbn [snd fst].
    repeat split.
    + exact Hrow.
    + intros p Hp. cbn. by rewrite Hp.
    + intros other Hne. subst db1.
      by rewrite <- (user_row_other_after_update userId other
                       (sub_ecoPoints cost) db Hne).
    + intros r Hr'. cbn. apply next_id_fresh.
      apply list_elem_of_fmap. by exists r.
Qed.

Lemma redeemReward_outcomes_witness :
  (redeemReward sample_defaults 1700000000000 "0.4fzyo82mvyr" "alice" 99
     sample_db).1 = Thrown "Reward not found"
  ∧ (redeemReward sample_defaults 1700000000000 "0.4fzyo82mvyr" "bob" 1
       sample_db).1 = Thrown "Insufficient EcoPoints"
  ∧ ∃ user',
      user_row "alice"
        (redeemReward sample_defaults 1700000000000 "0.4fzyo82mvyr" "alice" 1
           sample_db).2 = Some user'
      ∧ User.ecoPoints user' = Some 70.
Proof.
  split; [|split].
  - apply (redeemReward_outcomes sample_defaults 1700000000000 "0.4fzyo82mvyr"
             "alice" 99 sample_db).
    reflexivity.
  - destruct (redeemReward_outcomes sample_defaults 1700000000000
                "0.4fzyo82mvyr" "bob" 1 sample_db) as (_ & Hlow & _).
    eapply Hlow; [reflexivity|].
    right. exists bob. split; [reflexivity | cbn; lia].
  - destruct (redeemReward_outcomes sample_defaults 1700000000000
                "0.4fzyo82mvyr" "alice" 1 sample_db) as (_ & _ & Hok).
    destruct (Hok _ alice eq_refl eq_refl) as (row & user' & _ & Hrow & _ & Hp & _).
    { cbn. lia. }
    exists user'. split; [exact Hrow|]. apply (Hp 120). reflexivity.
Defined.

(** C4. Whenever [redeemReward] returns for a user whose ecoPoints is a
    non-negative integer, that user's ecoPoints after the deduction is an
    integer that is still non-negative: the balance check precedes the
    deduction. *)
Theorem redeemReward_ecoPoints_non_negative
    dflt now random36 userId rewardId db userReward db' user p :
  redeemReward dflt now random36 userId rewardId db = (Returned userReward, db') →
  user_row userId db = Some user →
  User.ecoPoints user = Some p →
  0 ≤ p →
  ∃ user' q,
    user_row userId db' = Some user'
    ∧ User.ecoPoints user' = Some q
    ∧ 0 ≤ q.
Proof.
  intros Hrun Hu Hp Hpos. rewrite redeemReward_run, Hu in Hrun.
  destruct (reward_row rewardId db) as [reward|]; [|discriminate].
  destruct (_ <? _) eqn:Hcheck; [discriminate|].
  cbn zeta in Hrun. injection Hrun as _ <-.
  apply Z.ltb_ge in Hcheck.
  rewrite or_zero_default, Hp in Hcheck. cbn in Hcheck.
  exists (sub_ecoPoints (Reward.ecoPointsCost reward) user),
         (p - Reward.ecoPointsCost reward).
  split; [|split; [cbn; by rewrite Hp | lia]].
  unfold user_row. cbn [users with_userRewards].
  fold (user_row userId
          (with_users (update_rows (λ u, String.eqb (User.id u) userId)
             (sub_ecoPoints (Reward.ecoPointsCost reward)) (users db)) db)).
  rewrite user_row_after_update by reflexivity. by rewrite Hu.
Qed.

Lemma redeemReward_ecoPoints_non_negative_witness :
  ∃ user' q,
    user_row "alice"
      (redeemReward sample_defaults 1700000000000 "0.4fzyo82mvyr" "alice" 1
         sample_db).2 = Some user'
    ∧ User.ecoPoints user' = Some q
    ∧ 0 ≤ q.
Proof.
  eapply (redeemReward_ecoPoints_non_negative sample_defaults 1700000000000
            "0.4fzyo82mvyr" "alice" 1 sample_db _ _ alice 120).
  - reflexivity.
  - reflexivity.
  - reflexivity.
  - lia.
Defined.

(** C10. Whenever [redeemReward] throws, with either message, the database
    is the one it started from: no points are deducted and no UserReward row
    is inserted, both reads and the balance check coming before any write. *)
Theorem redeemReward_throw_writes_nothing
    dflt now random36 userId rewardId db message :
  (redeemReward dflt now random36 userId rewardId db).1 = Thrown message →
  (redeemReward dflt now random36 userId rewardId db).2 = db
  ∧ (message = "Reward not found" ∨ message = "Insufficient EcoPoints").
Proof.
  rewrite redeemReward_run.
  destruct (reward_row rewardId db) as [reward|]; cbn.
  - destruct (user_row userId db) as [user|]; cbn.
    + destruct (_ <? _); cbn; [|discriminate].
      intros [= <-]. auto.
    + intros [= <-]. auto.
  - intros [= <-]. auto.
Qed.

Lemma redeemReward_throw_writes_nothing_witness :
  (redeemReward sample_defaults 1700000000000 "0.4fzyo82mvyr" "bob" 1
     sample_db).2 = sample_db.
Proof.
  apply (redeemReward_throw_writes_nothing sample_defaults 1700000000000
           "0.4fzyo82mvyr" "bob" 1 sample_db "Insufficient EcoPoints").
  reflexivity.
Defined.

(** ** The redemption code *)

Lemma toUpperCase_length s : String.length (toUpperCase s) = String.length s.
Proof. induction s as [|c s IH]; cbn; congruence. Qed.

Lemma string_take_length n s :
  String.length (string_take n s) = (n `min` String.length s)%nat.
Proof.
  revert s. induction n as [|n IH]; intros [|c s]; cbn; try reflexivity.
  by rewrite IH.
Qed.

Lemma string_drop_length n s :
  String.length (string_drop n s) = (String.length s - n)%nat.
Proof.
  revert s. induction n as [|n IH]; intros [|c s]; cbn; try reflexivity.
  apply IH.
Qed.

Lemma all_chars_take p n s :
  all_chars p s = true → all_chars p (string_take n s) = true.
Proof.
  revert s. induction n as [|n IH]; intros [|c s]; cbn; try reflexivity.
  intros [Hc Hs]%andb_prop. by rewrite Hc, IH.
Qed.

Lemma upper_of_digit36 c : is_digit36 c = true → is_upper_alnum (upper_ascii c) = true.
Proof.
  destruct c as [[] [] [] [] [] [] [] []]; vm_compute; congruence.
Qed.

Lemma all_chars_toUpperCase s :
  all_chars is_digit36 s = true →
  all_chars is_upper_alnum (toUpperCase s) = true.
Proof.
  induction s as [|c s IH]; cbn; [reflexivity|].
  intros [Hc Hs]%andb_prop. by rewrite upper_of_digit36, IH.
Qed.

Lemma random36_digits s :
  is_random36 s = true → all_chars is_digit36 (string_drop 2 s) = true.
Proof.
  intros H. destruct s as [|a [|b [|c rest]]]; try reflexivity.
  destruct a as [[] [] [] [] [] [] [] []]; try discriminate H.
  destruct b as [[] [] [] [] [] [] [] []]; try discriminate H.
  exact H.
Qed.

Lemma uint_digits d : all_chars is_decimal_digit (NilEmpty.string_of_uint d) = true.
Proof. induction d; cbn; auto. Qed.

Lemma number_to_string_digits n :
  0 ≤ n → all_chars is_decimal_digit (number_to_string n) = true.
Proof.
  intros Hn. unfold number_to_string.
  destruct n as [|p|p]; [reflexivity| |lia].
  cbn. unfold NilZero.string_of_uint.
  destruct (Pos.to_uint p); try reflexivity; apply uint_digits.
Qed.

Lemma append_cons c s t : String c s +:+ t = String c (s +:+ t).
Proof. reflexivity. Qed.

Lemma append_length s t :
  String.length (s +:+ t) = (String.length s + String.length t)%nat.
Proof.
  induction s as [|c s IH]; [reflexivity|].
  rewrite append_cons. cbn. by rewrite IH.
Qed.

Lemma string_drop_append s t : string_drop (String.length s) (s +:+ t) = t.
Proof.
  induction s as [|c s IH]; [by destruct t|].
  rewrite append_cons. exact IH.
Qed.

(** C7, as the code has it. Every redemption code of a successful
    [redeemReward] is the prefix "ECO-", the clock reading in decimal, a
    hyphen and a suffix of uppercase letters and digits; the suffix is the
    first six base-36 digits of the random draw and is shorter than six
    characters when the draw prints with fewer digits. *)
Theorem redeemReward_code_format
    dflt now random36 userId rewardId db userReward db' :
  redeemReward dflt now random36 userId rewardId db = (Returned userReward, db') →
  is_random36 random36 = true →
  0 ≤ now →
  ∃ suffix,
    UserReward.redemptionCode userReward
    = "ECO-" +:+ number_to_string now +:+ "-" +:+ suffix
    ∧ all_chars is_decimal_digit (number_to_string now) = true
    ∧ suffix = toUpperCase (substr 2 6 random36)
    ∧ String.length suffix = (6 `min` (String.length random36 - 2))%nat
    ∧ all_chars is_upper_alnum suffix = true.
Proof.
  intros Hrun Hrandom Hnow. rewrite redeemReward_run in Hrun.
  destruct (reward_row rewardId db) as [reward|]; [|discriminate].
  destruct (user_row userId db) as [user|]; [|discriminate].
  destruct (_ <? _); [discriminate|].
  cbn zeta in Hrun. injection Hrun as <- _.
  exists (toUpperCase (substr 2 6 random36)).
  split; [reflexivity|]. split; [by apply number_to_string_digits|].
  split; [reflexivity|]. split.
  - unfold substr.
    by rewrite toUpperCase_length, string_take_length, string_drop_length.
  - apply all_chars_toUpperCase, all_chars_take. by apply random36_digits.
Qed.

Lemma redeemReward_code_format_witness :
  ∃ suffix,
    UserReward.redemptionCode
      (redeemed_row sample_defaults 1700000000000 "0.4fzyo82mvyr" "alice" 1
         {| Reward.id := 1; Reward.ecoPointsCost := 50;
            Reward.isActive := true; Reward.validUntil := Some 99000 |}
         sample_db)
    = "ECO-" +:+ number_to_string 1700000000000 +:+ "-" +:+ suffix
    ∧ all_chars is_decimal_digit (number_to_string 1700000000000) = true
    ∧ suffix = toUpperCase (substr 2 6 "0.4fzyo82mvyr")
    ∧ String.length suffix = (6 `min` (String.length "0.4fzyo82mvyr" - 2))%nat
    ∧ all_chars is_upper_alnum suffix = true.
Proof.
  eapply (redeemReward_code_format sample_defaults 1700000000000
            "0.4fzyo82mvyr" "alice" 1 sample_db).
  - reflexivity.
  - reflexivity.
  - lia.
Defined.

Example redemptionCode_of_a_draw :
  redemptionCode 1700000000000 "0.4fzyo82mvyr" = "ECO-1700000000000-4FZYO8".
Proof. reflexivity. Qed.

Example redemptionCode_of_zero :
  redemptionCode 1700000000000 "0" = "ECO-1700000000000-".
Proof. reflexivity. Qed.

(** C7, as stated, fails: with the draw 0.5, which prints as "0.i" in base
    36, the code is "ECO-1700000000000-I", and no reading of it ends in six
    uppercase alphanumeric characters after a hyphen. *)
Lemma redeemReward_code_short_suffix :
  ∃ userReward db',
    redeemReward sample_defaults 1700000000000 "0.i" "alice" 1 sample_db
    = (Returned userReward, db')
    ∧ is_random36 "0.i" = true
    ∧ UserReward.redemptionCode userReward = "ECO-1700000000000-I"
    ∧ ¬ has_code_format 6 (UserReward.redemptionCode userReward).
Proof.
  eexists _, _. split; [reflexivity|]. split; [reflexivity|].
  split; [reflexivity|].
  change (UserReward.redemptionCode _) with "ECO-1700000000000-I".
  intros (timestamp & suffix & Hcode & Hlen & Halnum).
  change ("ECO-" +:+ timestamp +:+ "-" +:+ suffix)
    with ("ECO-" +:+ (timestamp +:+ String "-" suffix)) in Hcode.
  apply (f_equal (string_drop 4)) in Hcode.
  change (string_drop 4 ("ECO-" +:+ (timestamp +:+ String "-" suffix)))
    with (timestamp +:+ String "-" suffix) in Hcode.
  change (string_drop 4 "ECO-1700000000000-I") with "1700000000000-I" in Hcode.
  assert (Hts : String.length timestamp = 8%nat).
  { apply (f_equal String.length) in Hcode.
    rewrite (append_length timestamp) in Hcode. cbn in Hcode. lia. }
  apply (f_equal (string_drop 8)) in Hcode.
  rewrite <- Hts, (string_drop_append timestamp), Hts in Hcode.
  discriminate Hcode.
Qed.

(** ** [createWasteEntry] *)

(** C2. For every waste entry with a non-negative ecoPointsEarned,
    [createWasteEntry] appends the entry to the waste entries, adds exactly
    that amount to the ecoPoints of the owning user (and to no other
    user's), and returns the row it inserted. *)
Theorem createWasteEntry_adds_ecoPoints dflt now entry db earned user p :
  InsertWasteEntry.ecoPointsEarned entry = Some earned →
  0 ≤ earned →
  user_row (InsertWasteEntry.userId entry) db = Some user →
  User.ecoPoints user = Some p →
  ∃ wasteEntry user',
    (createWasteEntry dflt now entry db).1 = Returned wasteEntry
    ∧ wasteEntries (createWasteEntry dflt now entry db).2
      = wasteEntries db ++ [wasteEntry]
    ∧ WasteEntry.userId wasteEntry = InsertWasteEntry.userId entry
    ∧ WasteEntry.wasteType wasteEntry = InsertWasteEntry.wasteType entry
    ∧ WasteEntry.quantity wasteEntry = InsertWasteEntry.quantity entry
    ∧ WasteEntry.ecoPointsEarned wasteEntry = Some earned
    ∧ (∀ e, e ∈ wasteEntries db → WasteEntry.id e < WasteEntry.id wasteEntry)
    ∧ user_row (InsertWasteEntry.userId entry)
        (createWasteEntry dflt now entry db).2 = Some user'
    ∧ User.ecoPoints user' = Some (p + earned)
    ∧ (∀ other, other ≠ InsertWasteEntry.userId entry →
         user_row other (createWasteEntry dflt now entry db).2
         = user_row other db).
Proof.
  intros Hearned _ Huser Hp.
  unfold createWasteEntry, bind, insert_serial, update_where, ret.
  cbn [fst snd]. rewrite Hearned.
  assert (Hamount : or_zero (Some earned) = earned)
    by apply or_zero_default.
  rewrite Hamount.
  eexists _, (add_ecoPoints earned user).
  split; [reflexivity|]. split; [reflexivity|].
  repeat (split; [reflexivity|]).
  split; [|split; [|split]].
  - intros e He. cbn. apply next_id_fresh, list_elem_of_fmap. by exists e.
  - cbn [users with_wasteEntries].
    change (with_users ?t (with_wasteEntries ?w db))
      with (with_wasteEntries w (with_users t db)).
    unfold user_row at 1. cbn [users with_wasteEntries].
    fold (user_row (InsertWasteEntry.userId entry)
            (with_users
               (update_rows
                  (λ u, String.eqb (User.id u) (InsertWasteEntry.userId entry))
                  (add_ecoPoints earned) (users db)) db)).
    rewrite user_row_after_update by reflexivity. by rewrite Huser.
  - cbn. by rewrite Hp.
  - intros other Hne.
    rewrite <- (user_row_other_after_update (InsertWasteEntry.userId entry)
                  other (add_ecoPoints earned) db Hne) by reflexivity.
    reflexivity.
Qed.

Lemma createWasteEntry_adds_ecoPoints_witness :
  ∃ user',
    user_row "alice"
      (createWasteEntry sample_defaults 3000
         {| InsertWasteEntry.userId := "alice";
            InsertWasteEntry.wasteType := "paper";
            InsertWasteEntry.quantity := "1.5";
            InsertWasteEntry.ecoPointsEarned := Some 15 |} sample_db).2
    = Some user'
    ∧ User.ecoPoints user' = Some 135.
Proof.
  destruct (createWasteEntry_adds_ecoPoints sample_defaults 3000
              {| InsertWasteEntry.userId := "alice";
                 InsertWasteEntry.wasteType := "paper";
                 InsertWasteEntry.quantity := "1.5";
                 InsertWasteEntry.ecoPointsEarned := Some 15 |}
              sample_db 15 alice 120 eq_refl ltac:(lia) eq_refl eq_refl)
    as (wasteEntry & user' & _ & _ & _ & _ & _ & _ & _ & Hrow & Hpoints & _).
  exists user'. split; [exact Hrow | exact Hpoints].
Defined.

(** ** [joinCleanupEvent] *)

Lemma existsb_filter {R} (f : R → bool) (rows : list R) :
  existsb f rows = match List.filter f rows with [] => false | _ => true end.
Proof.
  induction rows as [|r rows IH]; [reflexivity|].
  cbn. destruct (f r); [reflexivity | exact IH].
Qed.

Lemma joinCleanupEvent_run dflt now eventId userId db :
  joinCleanupEvent dflt now eventId userId db =
  (Returned (),
   with_cleanupEvents
     (update_rows (λ e, CleanupEvent.id e =? eventId) add_participant
        (cleanupEvents db))
     (match participant_rows eventId userId db with
      | [] =>
          with_eventParticipants
            (eventParticipants db
             ++ [{| EventParticipant.eventId := eventId;
                    EventParticipant.userId := userId;
                    EventParticipant.joinedAt :=
                      eventParticipant_joinedAt dflt now |}]) db
      | _ => db
      end)).
Proof.
  unfold joinCleanupEvent, bind, insert_or_nothing, insert_into, update_where,
    ret, participant_rows.
  rewrite existsb_filter. unfold same_participant. cbn.
  by destruct (List.filter _ (eventParticipants db)).
Qed.

Lemma participant_rows_after_join dflt now eventId userId db :
  participant_rows eventId userId (joinCleanupEvent dflt now eventId userId db).2
  = match participant_rows eventId userId db with
    | [] => [{| EventParticipant.eventId := eventId;
                EventParticipant.userId := userId;
                EventParticipant.joinedAt := eventParticipant_joinedAt dflt now |}]
    | rows => rows
    end.
Proof.
  rewrite joinCleanupEvent_run. cbn [snd].
  destruct (participant_rows eventId userId db) as [|r rows] eqn:Hrows.
  - unfold participant_rows in *. cbn.
    rewrite List.filter_app, Hrows. cbn.
    by rewrite Z.eqb_refl, String.eqb_refl.
  - unfold participant_rows in *. cbn. exact Hrows.
Qed.

Lemma event_row_after_join dflt now eventId userId db :
  event_row eventId (joinCleanupEvent dflt now eventId userId db).2
  = add_participant <$> event_row eventId db.
Proof.
  rewrite joinCleanupEvent_run. cbn [snd]. unfold event_row.
  destruct (participant_rows eventId userId db); cbn;
    (rewrite filter_update_rows_same by reflexivity);
    by destruct (List.filter _ (cleanupEvents db)).
Qed.

(** The unique key is an invariant of the method: a pair with at most one
    participant row has at most one after any join. *)
Lemma joinCleanupEvent_keeps_unique dflt now eventId userId db e u :
  (length (participant_rows e u db) ≤ 1)%nat →
  (length (participant_rows e u (joinCleanupEvent dflt now eventId userId db).2)
   ≤ 1)%nat.
Proof.
  intros Hunique. rewrite joinCleanupEvent_run. cbn [snd].
  destruct (participant_rows eventId userId db) as [|r rows] eqn:Hrows;
    [|exact Hunique].
  unfold participant_rows in *. cbn [eventParticipants with_cleanupEvents
                                      with_eventParticipants].
  rewrite List.filter_app, length_app. cbn.
  destruct ((eventId =? e) && String.eqb userId u) eqn:Hsame; cbn; [|lia].
  apply andb_prop in Hsame as [->%Z.eqb_eq ->%String.eqb_eq].
  rewrite Hrows. cbn. lia.
Qed.

(** C3. For every pair (eventId, userId) with at most one participant row
    to begin with, two calls of [joinCleanupEvent] with the pair leave
    exactly one participant row for it, the second call writing no
    participant row at all; yet each call adds one to the event's
    currentParticipants, so the two calls raise the counter by two. *)
Theorem joinCleanupEvent_twice dflt now1 now2 eventId userId db :
  let db1 := (joinCleanupEvent dflt now1 eventId userId db).2 in
  let db2 := (joinCleanupEvent dflt now2 eventId userId db1).2 in
  (length (participant_rows eventId userId db) ≤ 1)%nat →
  length (participant_rows eventId userId db2) = 1%nat
  ∧ eventParticipants db2 = eventParticipants db1
  ∧ (∀ event n,
       event_row eventId db = Some event →
       CleanupEvent.currentParticipants event = Some n →
       ∃ event1 event2,
         event_row eventId db1 = Some event1
         ∧ CleanupEvent.currentParticipants event1 = Some (n + 1)
         ∧ event_row eventId db2 = Some event2
         ∧ CleanupEvent.currentParticipants event2 = Some (n + 2)).
Proof.
  intros db1 db2 Hunique.
  assert (Hone : length (participant_rows eventId userId db1) = 1%nat).
  { subst db1. rewrite participant_rows_after_join.
    destruct (participant_rows eventId userId db) as [|r [|r' rows]];
      cbn in *; [reflexivity | reflexivity | lia]. }
  split; [|split].
  - subst db2. rewrite participant_rows_after_join.
    by destruct (participant_rows eventId userId db1).
  - subst db2. rewrite joinCleanupEvent_run. cbn [snd].
    destruct (participant_rows eventId userId db1); [discriminate|reflexivity].
  - intros event n Hevent Hn.
    exists (add_participant event), (add_participant (add_participant event)).
    assert (H1 : event_row eventId db1 = Some (add_participant event)).
    { subst db1. by rewrite event_row_after_join, Hevent. }
    split; [exact H1|]. split; [cbn; by rewrite Hn|].
    split; [subst db2; by rewrite event_row_after_join, H1|].
    cbn. rewrite Hn. cbn. f_equal. lia.
Qed.

Lemma joinCleanupEvent_twice_witness :
  length (participant_rows 7 "alice"
            (joinCleanupEvent sample_defaults 5100 7 "alice"
               (joinCleanupEvent sample_defaults 5000 7 "alice" sample_db).2).2)
  = 1%nat
  ∧ CleanupEvent.currentParticipants
      <$> event_row 7
            (joinCleanupEvent sample_defaults 5100 7 "alice"
               (joinCleanupEvent sample_defaults 5000 7 "alice" sample_db).2).2
    = Some (Some 5).
Proof.
  destruct (joinCleanupEvent_twice sample_defaults 5000 5100 7 "alice" sample_db)
    as (Hrows & _ & Hcount).
  { cbn. lia. }
  split; [exact Hrows|].
  destruct (Hcount _ 3 eq_refl eq_refl) as (e1 & e2 & _ & _ & He2 & Hn2).
  rewrite He2. cbn. rewrite Hn2. reflexivity.
Defined.

(** ** [updateChallengeProgress] *)

Lemma updateChallengeProgress_run dflt now userId challengeId progress db :
  updateChallengeProgress dflt now userId challengeId progress db =
  (Returned (),
   match progress_rows userId challengeId db with
   | [] =>
       with_userChallengeProgress
         (userChallengeProgress db
          ++ [{| UserChallengeProgress.userId := userId;
                 UserChallengeProgress.challengeId := challengeId;
                 UserChallengeProgress.currentProgress := Some progress;
                 UserChallengeProgress.createdAt :=
                   userChallengeProgress_createdAt dflt now |}]) db
   | _ =>
       with_userChallengeProgress
         (update_rows
            (λ p, String.eqb (UserChallengeProgress.userId p) userId
                  && (UserChallengeProgress.challengeId p =? challengeId))
            (add_progress progress) (userChallengeProgress db)) db
   end).
Proof.
  unfold updateChallengeProgress, bind, insert_or_update, insert_into,
    update_where, ret, progress_rows.
  rewrite existsb_filter. unfold same_progress_key. cbn.
  by destruct (List.filter _ (userChallengeProgress db)).
Qed.

(** C5. For every (userId, challengeId, progress): when no progress row has
    the key, [updateChallengeProgress] appends one row for the key whose
    currentProgress is progress; when rows with the key exist, it inserts
    nothing and adds progress to the currentProgress each of them has,
    instead of replacing it. *)
Theorem updateChallengeProgress_upsert dflt now userId challengeId progress db :
  let db' := (updateChallengeProgress dflt now userId challengeId progress db).2 in
  (progress_rows userId challengeId db = [] →
     ∃ row,
       userChallengeProgress db' = userChallengeProgress db ++ [row]
       ∧ progress_rows userId challengeId db' = [row]
       ∧ UserChallengeProgress.userId row = userId
       ∧ UserChallengeProgress.challengeId row = challengeId
       ∧ UserChallengeProgress.currentProgress row = Some progress)
  ∧ (progress_rows userId challengeId db ≠ [] →
     length (userChallengeProgress db') = length (userChallengeProgress db)
     ∧ length (progress_rows userId challengeId db')
       = length (progress_rows userId challengeId db)
     ∧ ∀ i row n,
         progress_rows userId challengeId db !! i = Some row →
         UserChallengeProgress.currentProgress row = Some n →
         ∃ row',
           progress_rows userId challengeId db' !! i = Some row'
           ∧ UserChallengeProgress.currentProgress row' = Some (n + progress)).
Proof.
  cbn zeta. rewrite updateChallengeProgress_run. cbn [snd]. split.
  - intros Hnone. rewrite Hnone. eexists. split; [reflexivity|].
    split; [|repeat split].
    unfold progress_rows in *. cbn. rewrite List.filter_app, Hnone. cbn.
    by rewrite String.eqb_refl, Z.eqb_refl.
  - intros Hsome.
    destruct (progress_rows userId challengeId db) as [|r rows] eqn:Hrows;
      [done|].
    split; [cbn; apply update_rows_length|].
    assert (Hafter :
      progress_rows userId challengeId
        (with_userChallengeProgress
           (update_rows
              (λ p, String.eqb (UserChallengeProgress.userId p) userId
                    && (UserChallengeProgress.challengeId p =? challengeId))
              (add_progress progress) (userChallengeProgress db)) db)
      = add_progress progress <$> (r :: rows)).
    { rewrite <- Hrows. unfold progress_rows. cbn.
      by rewrite filter_update_rows_same. }
    rewrite Hafter. split; [by rewrite length_fmap|].
    intros i row n Hi Hn. exists (add_progress progress row). split.
    + by rewrite list_lookup_fmap, Hi.
    + cbn. by rewrite Hn.
Qed.

Lemma updateChallengeProgress_upsert_witness :
  (∃ row,
     progress_rows "bob" 4
       (updateChallengeProgress sample_defaults 4000 "bob" 4 3 sample_db).2
     = [row]
     ∧ UserChallengeProgress.currentProgress row = Some 3)
  ∧ (∃ row',
       progress_rows "alice" 4
         (updateChallengeProgress sample_defaults 4000 "alice" 4 3 sample_db).2
       !! 0%nat = Some row'
       ∧ UserChallengeProgress.currentProgress row' = Some 8).
Proof.
  split.
  - destruct (updateChallengeProgress_upsert sample_defaults 4000 "bob" 4 3
                sample_db) as (Hinsert & _).
    destruct (Hinsert eq_refl) as (row & _ & Hrows & _ & _ & Hprogress).
    exists row. split; [exact Hrows | exact Hprogress].
  - destruct (updateChallengeProgress_upsert sample_defaults 4000 "alice" 4 3
                sample_db) as (_ & Hupdate).
    destruct Hupdate as (_ & _ & Hadd); [discriminate|].
    destruct (Hadd 0%nat _ 5 eq_refl eq_refl) as (row' & Hrow' & Hprogress).
    exists row'. split; [exact Hrow' | exact Hprogress].
Defined.

(** ** [getUserAnalytics] *)

Lemma not_inherited_not_proto key :
  inherited_text key = None → String.eqb key "__proto__" = false.
Proof. unfold inherited_text. by destruct (String.eqb key "__proto__"). Qed.

Lemma inherited_text_nonempty key text :
  inherited_text key = Some text → text ≠ "".
Proof.
  unfold inherited_text.
  destruct (String.eqb key "__proto__"); [by intros [= <-]|].
  destruct (String.eqb key "constructor"); [by intros [= <-]|].
  destruct (existsb _ _); [by intros [= <-]|discriminate].
Qed.

Lemma nonempty_eqb s : s ≠ "" → String.eqb s "" = false.
Proof. intros Hs. by apply String.eqb_neq. Qed.

Lemma append_nonempty s t : s ≠ "" → s +:+ t ≠ "".
Proof. destruct s as [|c s]; [done|]. by rewrite append_cons. Qed.

Section Analytics.
Context {num : Type} (zero : num) (add : num → num → num)
        (truthy : num → bool) (parseFloat : string → num)
        (toText : num → string).

Local Abbreviation sum := (sum_quantities zero add parseFloat).
Local Abbreviation count := (tally zero add truthy parseFloat toText).
Local Abbreviation texts := (with_quantity_texts parseFloat toText).

Lemma sum_quantities_snoc entries e :
  sum (entries ++ [e]) = add (sum entries) (parseFloat (WasteEntry.quantity e)).
Proof. unfold sum_quantities. by rewrite foldl_app. Qed.

Lemma with_quantity_texts_nonempty start entries :
  start ≠ "" → texts start entries ≠ "".
Proof.
  unfold with_quantity_texts. revert start.
  induction entries as [|e entries IH]; intros start Hstart; [done|].
  cbn. apply IH. by apply append_nonempty.
Qed.

Lemma totals_are_numbers_prefix entries more :
  totals_are_numbers zero add truthy parseFloat (entries ++ more) →
  totals_are_numbers zero add truthy parseFloat entries.
Proof.
  intros Hall k. destruct (decide (k ≤ length entries)%nat) as [Hk|Hk].
  - rewrite <- (take_app_le entries more k Hk). apply Hall.
  - rewrite take_ge by lia.
    rewrite <- (take_app_length entries more). apply Hall.
Qed.

(** A step of the fold changes the object at the key of the entry only. *)
Lemma tally_other acc e key :
  key ≠ WasteEntry.wasteType e → count acc e !! key = acc !! key.
Proof.
  intros Hne. unfold tally, assign.
  destruct (String.eqb (WasteEntry.wasteType e) "__proto__"); [done|].
  by rewrite lookup_insert_ne.
Qed.

Lemma tally_lookup entries wasteType :
  inherited_text wasteType = None →
  totals_are_numbers zero add truthy parseFloat (of_type wasteType entries) →
  foldl count ∅ entries !! wasteType
  = match of_type wasteType entries with
    | [] => None
    | counted => Some (Number (sum counted))
    end.
Proof.
  intros Hown.
  induction entries as [|e entries IH] using rev_ind; intros Hnum;
    [reflexivity|].
  rewrite foldl_app. cbn [foldl]. unfold of_type in *.
  rewrite List.filter_app in *. cbn [List.filter] in *.
  destruct (String.eqb_spec (WasteEntry.wasteType e) wasteType) as [Heq|Hne].
  - unfold tally at 1, assign, or_zero_operand. rewrite Heq.
    rewrite (not_inherited_not_proto _ Hown), lookup_insert_eq, Hown.
    rewrite IH by (by eapply totals_are_numbers_prefix).
    pose proof (Hnum (length (List.filter
      (λ e0, String.eqb (WasteEntry.wasteType e0) wasteType) entries)))
      as Hlast.
    rewrite take_app_length in Hlast.
    destruct (List.filter _ entries) as [|first rest] eqn:Hcounted;
      [reflexivity|].
    cbn [app].
    change (first :: rest ++ [e]) with ((first :: rest) ++ [e]).
    rewrite sum_quantities_snoc.
    destruct (truthy (sum (first :: rest))) eqn:Htruthy; [reflexivity|].
    by rewrite (Hlast eq_refl).
  - rewrite tally_other by done. rewrite app_nil_r in *. by apply IH.
Qed.

Lemma tally_lookup_inherited entries wasteType text :
  inherited_text wasteType = Some text →
  wasteType ≠ "__proto__" →
  foldl count ∅ entries !! wasteType
  = match of_type wasteType entries with
    | [] => None
    | counted => Some (Text (texts text counted))
    end.
Proof.
  intros Hinherited Hproto.
  induction entries as [|e entries IH] using rev_ind; [reflexivity|].
  rewrite foldl_app. cbn [foldl]. unfold of_type in *.
  rewrite List.filter_app. cbn [List.filter].
  destruct (String.eqb_spec (WasteEntry.wasteType e) wasteType) as [Heq|Hne].
  - unfold tally at 1, assign, or_zero_operand. rewrite Heq.
    apply String.eqb_neq in Hproto. rewrite Hproto, lookup_insert_eq, IH.
    rewrite Hinherited.
    destruct (List.filter _ entries) as [|first rest] eqn:Hcounted;
      [reflexivity|].
    rewrite nonempty_eqb
      by (eapply with_quantity_texts_nonempty, inherited_text_nonempty; eauto).
    cbn [app plus].
    change (first :: rest ++ [e]) with ((first :: rest) ++ [e]).
    unfold with_quantity_texts. by rewrite foldl_app.
  - rewrite tally_other by done. by rewrite app_nil_r.
Qed.

Lemma tally_lookup_proto entries : foldl count ∅ entries !! "__proto__" = None.
Proof.
  induction entries as [|e entries IH] using rev_ind; [reflexivity|].
  rewrite foldl_app. cbn [foldl]. unfold tally, assign.
  destruct (String.eqb_spec (WasteEntry.wasteType e) "__proto__") as [Heq|Hne];
    [exact IH|].
  rewrite lookup_insert_ne by done. exact IH.
Qed.

(** C6. [getUserAnalytics] does not map every waste type to the sum of
    its quantities. The accumulator is an object literal, and a waste type
    that names a property the literal inherits from [Object.prototype] (such
    as "constructor") reads as that property, not as [undefined]: the value
    kept for it is the text of the inherited property followed by the texts
    of the quantities, and for "__proto__" no value is kept at all. In
    neither case is it a number, so it is not the sum. *)
Theorem getUserAnalytics_inherited_waste_type userId db wasteType text :
  inherited_text wasteType = Some text →
  of_type wasteType (entries_of userId db) ≠ [] →
  ∃ analytics,
    getUserAnalytics zero add truthy parseFloat toText userId db
    = (Returned analytics, db)
    ∧ (wasteType = "__proto__" → wasteByType analytics !! wasteType = None)
    ∧ (wasteType ≠ "__proto__" →
       wasteByType analytics !! wasteType
       = Some (Text (texts text (of_type wasteType (entries_of userId db)))))
    ∧ (∀ total, wasteByType analytics !! wasteType ≠ Some (Number total)).
Proof.
  intros Hinherited Hsome.
  unfold getUserAnalytics, bind, select_from, ret. cbn beta iota zeta.
  eexists. split; [reflexivity|]. cbn [wasteByType].
  fold (entries_of userId db).
  destruct (String.eqb_spec wasteType "__proto__") as [->|Hproto].
  - rewrite tally_lookup_proto. by repeat split.
  - rewrite (tally_lookup_inherited _ _ _ Hinherited Hproto).
    destruct (of_type wasteType (entries_of userId db)); [done|].
    by repeat split.
Qed.

(** X27. For every user, [getUserAnalytics] returns, without writing
    anything: totalWasteEntries, the number of the user's entries;
    totalEcoPoints, the balance of the user row, and 0 when there is no row
    or no balance; carbonFootprint, the parsed footprint text of the user
    row, and that of "0" when there is no row or an empty or missing text;
    and a wasteByType in which every waste type that is not the name of an
    inherited property maps to the sum of the quantities of the user's
    entries of that type, provided no running total is NaN, and is not a
    key when the user has no entry of that type. *)
Theorem getUserAnalytics_sums userId db :
  ∃ analytics,
    getUserAnalytics zero add truthy parseFloat toText userId db
    = (Returned analytics, db)
    ∧ totalWasteEntries analytics = length (entries_of userId db)
    ∧ totalEcoPoints analytics
      = match user_row userId db ≫= User.ecoPoints with
        | Some points => points
        | None => 0
        end
    ∧ carbonFootprint analytics
      = match user_row userId db ≫= User.carbonFootprint with
        | Some (String c footprint) => parseFloat (String c footprint)
        | _ => parseFloat "0"
        end
    ∧ ∀ wasteType,
        inherited_text wasteType = None →
        totals_are_numbers zero add truthy parseFloat
          (of_type wasteType (entries_of userId db)) →
        wasteByType analytics !! wasteType
        = match of_type wasteType (entries_of userId db) with
          | [] => None
          | counted => Some (Number (sum counted))
          end.
Proof.
  unfold getUserAnalytics, bind, select_from, ret. cbn beta iota zeta.
  eexists. split; [reflexivity|]. cbn.
  split; [reflexivity|]. fold (user_row userId db).
  split; [|split].
  - destruct (user_row userId db ≫= User.ecoPoints) as [points|];
      [|reflexivity].
    apply (or_zero_default (Some points)).
  - by destruct (user_row userId db ≫= User.carbonFootprint) as [[|c s]|].
  - intros wasteType Hown Hnum. by apply tally_lookup.
Qed.

End Analytics.

Lemma getUserAnalytics_inherited_waste_type_witness :
  ∃ analytics,
    getUserAnalytics 0 Z.add (λ n, negb (n =? 0)) parse_integer number_to_string
      "carol" odd_db
    = (Returned analytics, odd_db)
    ∧ wasteByType analytics !! "constructor"
      = Some (Text "function Object() { [native code] }25")
    ∧ sum_quantities 0 Z.add parse_integer
        (of_type "constructor" (entries_of "carol" odd_db)) = 7.
Proof.
  destruct (getUserAnalytics_inherited_waste_type 0 Z.add (λ n, negb (n =? 0))
              parse_integer number_to_string "carol" odd_db "constructor"
              "function Object() { [native code] }" eq_refl)
    as (analytics & Hrun & _ & Htext & _).
  { discriminate. }
  exists analytics. split; [exact Hrun|]. split; [|reflexivity].
  rewrite Htext by discriminate. reflexivity.
Defined.

Lemma getUserAnalytics_sums_witness :
  ∃ analytics,
    getUserAnalytics 0 Z.add (λ n, negb (n =? 0)) parse_integer number_to_string
      "alice" sample_db
    = (Returned analytics, sample_db)
    ∧ totalWasteEntries analytics = 2%nat
    ∧ totalEcoPoints analytics = 120
    ∧ carbonFootprint analytics = 12
    ∧ wasteByType analytics !! "plastic" = Some (Number 5)
    ∧ wasteByType analytics !! "glass" = None.
Proof.
  destruct (getUserAnalytics_sums 0 Z.add (λ n, negb (n =? 0)) parse_integer
              number_to_string "alice" sample_db)
    as (analytics & Hrun & Hcount & Hpoints & Hfootprint & Htypes).
  exists analytics. split; [exact Hrun|].
  split; [exact Hcount|]. split; [exact Hpoints|]. split; [exact Hfootprint|].
  split.
  - rewrite (Htypes "plastic"); [reflexivity | reflexivity |].
    intros k Hfalsy. apply negb_false_iff, Z.eqb_eq in Hfalsy. exact Hfalsy.
  - rewrite (Htypes "glass"); [reflexivity | reflexivity |].
    intros k Hfalsy. apply negb_false_iff, Z.eqb_eq in Hfalsy. exact Hfalsy.
Defined.

Example getUserAnalytics_of_alice :
  (getUserAnalytics 0 Z.add (λ n, negb (n =? 0)) parse_integer number_to_string
     "alice" sample_db).1
  = Returned {| totalWasteEntries := 2; totalEcoPoints := 120;
                wasteByType := {["plastic" := Number 5]};
                carbonFootprint := 12 |}.
Proof. vm_compute. reflexivity. Qed.

Example getUserAnalytics_of_carol :
  (getUserAnalytics 0 Z.add (λ n, negb (n =? 0)) parse_integer number_to_string
     "carol" odd_db).1
  = Returned {| totalWasteEntries := 4; totalEcoPoints := 0;
                wasteByType :=
                  {["constructor" := Text "function Object() { [native code] }25";
                    "paper" := Number 4]};
                carbonFootprint := 0 |}.
Proof. vm_compute. reflexivity. Qed.

(** ** [updateCommunityReportStatus] *)

(** C9, as stated, fails: a resolved report goes back to reported. *)
Lemma report_status_moves_backwards : ¬ status_changes_follow_lifecycle.
Proof.
  intros Hlifecycle.
  assert (Hchange : "resolved" ≠ "reported") by discriminate.
  specialize (Hlifecycle 5000 1 "reported" sample_db _ _ "resolved" "reported"
                eq_refl eq_refl eq_refl eq_refl Hchange).
  discriminate Hlifecycle.
Qed.

(** C9, as the code has it. [updateCommunityReportStatus] stores whatever
    status string it is given on the report with the given id, whatever the
    status of the report was: it checks no order between the old and the new
    status.  It stamps resolvedAt when the new status is "resolved", leaves
    it otherwise, touches no other report and returns the updated row. *)
Theorem updateCommunityReportStatus_stores_any_status now id status db report :
  report_row id db = Some report →
  ∃ report',
    (updateCommunityReportStatus now id status db).1 = Returned (Some report')
    ∧ report_row id (updateCommunityReportStatus now id status db).2
      = Some report'
    ∧ CommunityReport.status report' = Some status
    ∧ CommunityReport.resolvedAt report'
      = (if String.eqb status "resolved" then Some now
         else CommunityReport.resolvedAt report)
    ∧ CommunityReport.id report' = id
    ∧ (∀ other, other ≠ id →
         report_row other (updateCommunityReportStatus now id status db).2
         = report_row other db).
Proof.
  intros Hreport.
  unfold updateCommunityReportStatus, bind, update_where, ret. cbn [fst snd].
  unfold report_row in *. cbn [communityReports with_communityReports].
  rewrite filter_update_rows_same by reflexivity.
  destruct (List.filter _ (communityReports db)) as [|first rest] eqn:Hrows;
    [discriminate|].
  injection Hreport as ->.
  assert (Hid : CommunityReport.id report = id).
  { assert (Hin : In report (List.filter (λ r, CommunityReport.id r =? id)
                               (communityReports db)))
      by (rewrite Hrows; by left).
    apply List.filter_In in Hin as [_ Hin]. by apply Z.eqb_eq. }
  eexists. split; [reflexivity|]. split; [reflexivity|]. cbn.
  split; [reflexivity|]. split; [by destruct (String.eqb status "resolved")|].
  split; [exact Hid|].
  intros other Hne. rewrite filter_update_rows_other; [done| |].
  - intros r Hr. apply Z.eqb_eq in Hr. apply Z.eqb_neq. congruence.
  - intros r Hr. apply Z.eqb_eq in Hr. cbn. apply Z.eqb_neq. congruence.
Qed.

Lemma updateCommunityReportStatus_stores_any_status_witness :
  ∃ report',
    report_row 1 (updateCommunityReportStatus 5000 1 "reported" sample_db).2
    = Some report'
    ∧ CommunityReport.status report' = Some "reported".
Proof.
  destruct (updateCommunityReportStatus_stores_any_status 5000 1 "reported"
              sample_db _ eq_refl) as (report' & _ & Hrow & Hstatus & _).
  exists report'. split; [exact Hrow | exact Hstatus].
Defined.

(** ** No method deletes a row *)

Lemma rows_kept_refl {R K} (key : R → K) rows : rows_kept key rows rows.
Proof. unfold rows_kept. reflexivity. Qed.

Lemma rows_kept_trans {R K} (key : R → K) a b c :
  rows_kept key a b → rows_kept key b c → rows_kept key a c.
Proof. unfold rows_kept. intros Hab Hbc. by etrans. Qed.

Lemma rows_kept_insert {R K} (key : R → K) rows more :
  rows_kept key rows (rows ++ more).
Proof. unfold rows_kept. rewrite fmap_app. by apply prefix_app_r. Qed.

Lemma rows_kept_update {R K} (key : R → K) (cond : R → bool) (set : R → R) rows :
  (∀ r, cond r = true → key (set r) = key r) →
  rows_kept key rows (update_rows cond set rows).
Proof.
  intros Hkey. unfold rows_kept, update_rows.
  rewrite <- list_fmap_compose.
  replace (key ∘ (λ r, if cond r then set r else r) <$> rows) with (key <$> rows);
    [reflexivity|].
  apply list_fmap_ext. intros _ r _. cbn.
  destruct (cond r) eqn:Hc; [by rewrite Hkey | done].
Qed.

Lemma no_row_deleted_refl db : no_row_deleted db db.
Proof. repeat split; apply rows_kept_refl. Qed.

Lemma no_row_deleted_trans a b c :
  no_row_deleted a b → no_row_deleted b c → no_row_deleted a c.
Proof.
  unfold no_row_deleted. intros Hab Hbc.
  repeat match goal with H : _ ∧ _ |- _ => destruct H end.
  repeat split; by eapply rows_kept_trans.
Qed.

Create HintDb rows.
#[local] Hint Resolve rows_kept_refl rows_kept_insert : rows.

Ltac rows_kept_by_update :=
  apply rows_kept_update; intros r Hr; cbn in *;
  try reflexivity;
  try (apply String.eqb_eq in Hr; congruence).

Ltac each_table :=
  unfold no_row_deleted; cbn;
  repeat split; first [ solve [auto with rows] | rows_kept_by_update ].

Lemma after_no_row_deleted {num} dflt (zero : num) add truthy parseFloat toText
    call db :
  no_row_deleted db (after dflt zero add truthy parseFloat toText call db).
Proof.
  destruct call; cbn [after];
    try apply no_row_deleted_refl.
  - (* upsertUser *)
    unfold upsertUser, upsert_returning.
    destruct (List.find _ (users db)); each_table.
  - (* createWasteEntry *)
    unfold createWasteEntry, bind, insert_serial, update_where, ret. each_table.
  - (* createPickupSchedule *)
    unfold createPickupSchedule, insert_serial. each_table.
  - (* updatePickupScheduleStatus *)
    unfold updatePickupScheduleStatus, bind, update_where, ret. each_table.
  - (* createCommunityReport *)
    unfold createCommunityReport, insert_serial. each_table.
  - (* updateCommunityReportStatus *)
    unfold updateCommunityReportStatus, bind, update_where, ret. each_table.
  - (* createCleanupEvent *)
    unfold createCleanupEvent, insert_serial. each_table.
  - (* joinCleanupEvent *)
    rewrite joinCleanupEvent_run.
    destruct (participant_rows eventId userId db); each_table.
  - (* updateChallengeProgress *)
    rewrite updateChallengeProgress_run.
    destruct (progress_rows userId challengeId db); each_table.
  - (* redeemReward *)
    rewrite redeemReward_run.
    destruct (reward_row rewardId db); [|apply no_row_deleted_refl].
    destruct (user_row userId db); [|apply no_row_deleted_refl].
    destruct (_ <? _); [apply no_row_deleted_refl|]. each_table.
Qed.

(** C8. No method of [DatabaseStorage] deletes a row: after any call, and
    so after any sequence of calls, every table still holds each row it held
    before, at its place and under its key, possibly with other columns
    updated and with new rows after it. *)
Theorem no_call_deletes_a_row {num} dflt (zero : num) add truthy parseFloat
    toText (calls : list Call) (db : DB) :
  no_row_deleted db (after_all dflt zero add truthy parseFloat toText calls db).
Proof.
  revert db. induction calls as [|call calls IH]; intros db.
  - apply no_row_deleted_refl.
  - cbn. eapply no_row_deleted_trans; [|apply IH].
    apply after_no_row_deleted.
Qed.

(** ** Sorted queries *)

Lemma null_last_le_total (a b : option Z) :
  null_last_le a b = true ∨ null_last_le b a = true.
Proof.
  destruct a as [x|], b as [y|]; cbn; auto.
  destruct (Z.leb_spec x y); [by left|]. right. apply Z.leb_le. lia.
Qed.

Lemma null_last_le_trans (a b c : option Z) :
  null_last_le a b = true → null_last_le b c = true → null_last_le a c = true.
Proof.
  destruct a as [x|], b as [y|], c as [z|]; cbn; try done.
  rewrite !Z.leb_le. lia.
Qed.

#[local] Instance ascending_total {R} (col : R → option Z) : Total (ascending col).
Proof.
  intros a b. unfold ascending.
  destruct (null_last_le_total (col a) (col b)) as [H|H]; rewrite H; cbn; auto.
Qed.

#[local] Instance ascending_trans {R} (col : R → option Z) :
  Transitive (ascending col).
Proof.
  intros a b c. unfold ascending. rewrite !Is_true_true.
  apply null_last_le_trans.
Qed.

#[local] Instance descending_total {R} (col : R → option Z) :
  Total (descending col).
Proof.
  intros a b. unfold descending.
  destruct (null_last_le_total (col a) (col b)) as [H|H]; rewrite H; cbn; auto.
Qed.

#[local] Instance descending_trans {R} (col : R → option Z) :
  Transitive (descending col).
Proof.
  intros a b c. unfold descending. rewrite !Is_true_true.
  intros Hab Hbc. by eapply null_last_le_trans.
Qed.

Lemma order_by_permutation {R} (col : R → option Z) rows :
  order_by col rows ≡ₚ rows.
Proof. apply merge_sort_Permutation. Qed.

Lemma order_by_desc_permutation {R} (col : R → option Z) rows :
  order_by_desc col rows ≡ₚ rows.
Proof. apply merge_sort_Permutation. Qed.

Lemma order_by_sorted {R} (col : R → option Z) rows :
  StronglySorted (ascending col) (order_by col rows).
Proof. apply (StronglySorted_merge_sort (ascending col)). Qed.

Lemma order_by_desc_sorted {R} (col : R → option Z) rows :
  StronglySorted (descending col) (order_by_desc col rows).
Proof. apply (StronglySorted_merge_sort (descending col)). Qed.


Lemma elem_of_filter_bool {R} (f : R → bool) rows r :
  r ∈ List.filter f rows ↔ r ∈ rows ∧ f r = true.
Proof. rewrite !list_elem_of_In. apply List.filter_In. Qed.

(** X1. [getUserWasteEntries] writes nothing and returns the waste entries
    of the user, each of them once and no other entry, newest first: the
    result is a rearrangement of the user's entries that is sorted by
    createdAt in descending order, entries without a date ahead. *)
Theorem getUserWasteEntries_newest_first userId db :
  ∃ result,
    getUserWasteEntries userId db = (Returned result, db)
    ∧ result ≡ₚ entries_of userId db
    ∧ (∀ e, e ∈ result ↔ e ∈ wasteEntries db ∧ WasteEntry.userId e = userId)
    ∧ StronglySorted (descending WasteEntry.createdAt) result.
Proof.
  eexists. split; [reflexivity|]. split; [apply order_by_desc_permutation|].
  split; [|apply order_by_desc_sorted].
  intros e. rewrite order_by_desc_permutation, elem_of_filter_bool.
  by rewrite String.eqb_eq.
Qed.



(** X3. [getCommunityReports] returns the newest reports, at most limit of
    them and at most 50 when no limit is given: the result has
    min(limit, number of reports) rows, and together with the reports it
    leaves out it is the whole table sorted by createdAt in descending
    order, so no report left out is newer than a returned one. *)
Theorem getCommunityReports_newest limit db :
  ∃ result rest,
    getCommunityReports limit db = (Returned result, db)
    ∧ length result = (default 50 limit `min` length (communityReports db))%nat
    ∧ result ++ rest ≡ₚ communityReports db
    ∧ StronglySorted (descending CommunityReport.createdAt) (result ++ rest).
Proof.
  unfold getCommunityReports, bind, select_from, ret. cbn beta iota.
  assert (Hall : List.filter (λ _ : CommunityReport.t, true) (communityReports db)
                 = communityReports db).
  { induction (communityReports db) as [|r rows IH]; [done|]. cbn. by rewrite IH. }
  rewrite Hall.
  set (sorted := order_by_desc CommunityReport.createdAt (communityReports db)).
  exists (take (default 50%nat limit) sorted), (drop (default 50%nat limit) sorted).
  split; [reflexivity|]. split.
  - rewrite length_take. subst sorted.
    by rewrite (Permutation_length (order_by_desc_permutation _ _)).
  - rewrite take_drop. split; [apply order_by_desc_permutation|].
    apply order_by_desc_sorted.
Qed.



(** X6. [redeemReward] looks neither at isActive nor at the clock: a reward
    that is not active, and so not among the available rewards, is redeemed
    all the same when the balance covers its cost, and the new row expires
    at the reward's validUntil whatever the time of the call. *)
Theorem redeemReward_ignores_isActive
    dflt now random36 userId rewardId db reward user :
  reward_row rewardId db = Some reward →
  Reward.isActive reward = false →
  user_row userId db = Some user →
  Reward.ecoPointsCost reward ≤ or_zero (User.ecoPoints user) →
  ∃ userReward available,
    (redeemReward dflt now random36 userId rewardId db).1 = Returned userReward
    ∧ UserReward.expiresAt userReward = Reward.validUntil reward
    ∧ getAvailableRewards db = (Returned available, db)
    ∧ reward ∉ available.
Proof.
  intros Hreward Hinactive Huser Hcost.
  rewrite redeemReward_run, Hreward, Huser.
  apply Z.ltb_ge in Hcost. rewrite Hcost. cbn zeta.
  eexists _, _. split; [reflexivity|]. split; [reflexivity|].
  split; [reflexivity|].
  rewrite order_by_permutation, elem_of_filter_bool.
  intros [_ Hactive]. congruence.
Qed.

Lemma redeemReward_ignores_isActive_witness :
  ∃ userReward,
    (redeemReward sample_defaults 100000 "0.4fzyo82mvyr" "alice" 2
       (with_users [alice]
          {| users := []; wasteEntries := []; pickupSchedules := [];
             communityReports := []; cleanupEvents := [];
             eventParticipants := []; ecoChallenges := [];
             userChallengeProgress := [];
             rewards := [{| Reward.id := 2; Reward.ecoPointsCost := 20;
                            Reward.isActive := false;
                            Reward.validUntil := Some 99000 |}];
             userRewards := [] |})).1 = Returned userReward
    ∧ UserReward.expiresAt userReward = Some 99000.
Proof.
  destruct (redeemReward_ignores_isActive sample_defaults 100000 "0.4fzyo82mvyr"
              "alice" 2
              (with_users [alice]
                 {| users := []; wasteEntries := []; pickupSchedules := [];
                    communityReports := []; cleanupEvents := [];
                    eventParticipants := []; ecoChallenges := [];
                    userChallengeProgress := [];
                    rewards := [{| Reward.id := 2; Reward.ecoPointsCost := 20;
                                   Reward.isActive := false;
                                   Reward.validUntil := Some 99000 |}];
                    userRewards := [] |})
              _ alice eq_refl eq_refl eq_refl)
    as (userReward & available & Hrun & Hexpires & _).
  { cbn. lia. }
  exists userReward. split; [exact Hrun | exact Hexpires].
Defined.

(** X7. After a successful [redeemReward], [getUserRewards] of the user
    lists the returned row, once, together with the rows it listed before,
    which do not include it. *)
Theorem redeemReward_then_getUserRewards
    dflt now random36 userId rewardId db userReward db' :
  redeemReward dflt now random36 userId rewardId db = (Returned userReward, db') →
  ∃ before after,
    getUserRewards userId db = (Returned before, db)
    ∧ getUserRewards userId db' = (Returned after, db')
    ∧ after ≡ₚ userReward :: before
    ∧ userReward ∉ before.
Proof.
  intros Hrun. rewrite redeemReward_run in Hrun.
  destruct (reward_row rewardId db) as [reward|]; [|discriminate].
  destruct (user_row userId db) as [user|]; [|discriminate].
  destruct (_ <? _); [discriminate|].
  cbn zeta in Hrun. injection Hrun as <- <-.
  eexists _, _. split; [reflexivity|]. split; [reflexivity|]. split.
  - rewrite !order_by_desc_permutation. cbn.
    rewrite List.filter_app. cbn. rewrite String.eqb_refl.
    by rewrite Permutation_app_comm.
  - rewrite order_by_desc_permutation, elem_of_filter_bool.
    intros [Hin _].
    assert (Hid : UserReward.id
                    (redeemed_row dflt now random36 userId rewardId reward db)
                  < next_id (UserReward.id <$> userRewards db)).
    { apply next_id_fresh, list_elem_of_fmap. eauto. }
    cbn in Hid. lia.
Qed.

Lemma redeemReward_then_getUserRewards_witness :
  ∃ after,
    getUserRewards "alice"
      (redeemReward sample_defaults 1700000000000 "0.4fzyo82mvyr" "alice" 1
         sample_db).2
    = (Returned after,
       (redeemReward sample_defaults 1700000000000 "0.4fzyo82mvyr" "alice" 1
          sample_db).2)
    ∧ length after = 1%nat.
Proof.
  destruct (redeemReward_then_getUserRewards sample_defaults 1700000000000
              "0.4fzyo82mvyr" "alice" 1 sample_db _ _ eq_refl)
    as (before & after & Hbefore & Hafter & Hperm & _).
  exists after. split; [exact Hafter|].
  injection Hbefore as <-. by rewrite Hperm.
Defined.

Lemma reward_row_after_redeem dflt now random36 userId rewardId db other :
  reward_row other (redeemReward dflt now random36 userId rewardId db).2
  = reward_row other db.
Proof.
  rewrite redeemReward_run.
  destruct (reward_row rewardId db) as [reward|]; [|reflexivity].
  destruct (user_row userId db) as [user|]; [|reflexivity].
  by destruct (_ <? _).
Qed.

(** X8. Points are spent once. After a redemption of cost c1 from an integer
    balance p, a second redemption by the same user, of cost c2, throws
    "Insufficient EcoPoints" when c2 exceeds the remaining p - c1, and
    otherwise returns a row with another id and leaves p - c1 - c2. *)
Theorem redeemReward_twice
    dflt now1 random1 now2 random2 userId rewardId1 rewardId2
    db userReward1 db1 reward1 reward2 user p :
  redeemReward dflt now1 random1 userId rewardId1 db = (Returned userReward1, db1) →
  reward_row rewardId1 db = Some reward1 →
  reward_row rewardId2 db = Some reward2 →
  user_row userId db = Some user →
  User.ecoPoints user = Some p →
  let second := redeemReward dflt now2 random2 userId rewardId2 db1 in
  (p - Reward.ecoPointsCost reward1 < Reward.ecoPointsCost reward2 →
     second = (Thrown "Insufficient EcoPoints", db1))
  ∧ (Reward.ecoPointsCost reward2 ≤ p - Reward.ecoPointsCost reward1 →
     ∃ userReward2 user2,
       second.1 = Returned userReward2
       ∧ UserReward.id userReward2 ≠ UserReward.id userReward1
       ∧ user_row userId second.2 = Some user2
       ∧ User.ecoPoints user2
         = Some (p - Reward.ecoPointsCost reward1 - Reward.ecoPointsCost reward2)).
Proof.
  intros Hfirst Hreward1 Hreward2 Huser Hp second.
  assert (Hrewards : reward_row rewardId2 db1 = Some reward2).
  { replace db1 with (redeemReward dflt now1 random1 userId rewardId1 db).2
      by (by rewrite Hfirst).
    by rewrite reward_row_after_redeem. }
  rewrite redeemReward_run, Hreward1, Huser in Hfirst.
  destruct (_ <? _); [discriminate|].
  cbn zeta in Hfirst. injection Hfirst as <- <-.
  set (c1 := Reward.ecoPointsCost reward1) in *.
  set (c2 := Reward.ecoPointsCost reward2) in *.
  set (db0 := with_users _ db) in *.
  set (row1 := redeemed_row dflt now1 random1 userId rewardId1 reward1 db) in *.
  assert (Huser1 : user_row userId (with_userRewards (userRewards db ++ [row1]) db0)
                   = Some (sub_ecoPoints c1 user)).
  { change (user_row userId (with_userRewards (userRewards db ++ [row1]) db0))
      with (user_row userId db0).
    subst db0. rewrite user_row_after_update by reflexivity. by rewrite Huser. }
  assert (Hbalance : or_zero (User.ecoPoints (sub_ecoPoints c1 user)) = p - c1).
  { cbn. rewrite Hp. cbn. apply (or_zero_default (Some (p - c1))). }
  subst second. rewrite redeemReward_run, Hrewards, Huser1, Hbalance.
  fold c2. split.
  - intros Hlow. apply Z.ltb_lt in Hlow. by rewrite Hlow.
  - intros Henough. apply Z.ltb_ge in Henough. rewrite Henough. cbn zeta.
    eexists _, (sub_ecoPoints c2 (sub_ecoPoints c1 user)).
    split; [reflexivity|]. cbn [fst snd]. split; [|split].
    + cbn. rewrite fmap_app. cbn.
      assert (Hfresh : UserReward.id row1
                       < next_id ((UserReward.id <$> userRewards db)
                                  ++ [UserReward.id row1])).
      { apply next_id_fresh. set_solver. }
      cbn in Hfresh. lia.
    + match goal with
      | |- user_row userId (with_userRewards ?t ?d) = _ =>
          change (user_row userId (with_userRewards t d)) with (user_row userId d)
      end.
      rewrite user_row_after_update by reflexivity. by rewrite Huser1.
    + cbn. rewrite Hp. cbn. reflexivity.
Qed.

Lemma redeemReward_twice_witness :
  ∃ userReward2 user2,
    (redeemReward sample_defaults 1700000000500 "0.9x2k" "alice" 1
       (redeemReward sample_defaults 1700000000000 "0.4fzyo82mvyr" "alice" 1
          sample_db).2).1 = Returned userReward2
    ∧ UserReward.id userReward2 = 2
    ∧ user_row "alice"
        (redeemReward sample_defaults 1700000000500 "0.9x2k" "alice" 1
           (redeemReward sample_defaults 1700000000000 "0.4fzyo82mvyr" "alice" 1
              sample_db).2).2 = Some user2
    ∧ User.ecoPoints user2 = Some 20.
Proof.
  destruct (redeemReward_twice sample_defaults 1700000000000 "0.4fzyo82mvyr"
              1700000000500 "0.9x2k" "alice" 1 1 sample_db _ _ _ _ alice 120
              eq_refl eq_refl eq_refl eq_refl eq_refl) as (_ & Hsecond).
  destruct Hsecond as (row2 & user2 & Hrow2 & _ & Huser2 & Hpoints);
    [cbn; lia|].
  exists row2, user2. split; [exact Hrow2|].
  split; [by injection Hrow2 as <-|]. split; [exact Huser2 | exact Hpoints].
Defined.

(** ** [getUser] and [upsertUser] *)

Lemma find_head_filter {R} (f : R → bool) rows :
  List.find f rows = head (List.filter f rows).
Proof.
  induction rows as [|r rows IH]; [reflexivity|].
  cbn. by destruct (f r).
Qed.

Lemma filter_none {R} (f : R → bool) rows :
  head (List.filter f rows) = None → List.filter f rows = [].
Proof. by destruct (List.filter f rows). Qed.

Lemma filter_update_rows_hit {R} (cond : R → bool) (set : R → R) rows :
  (∀ r, cond r = true → cond (set r) = true) →
  List.filter cond (update_rows cond set rows) = set <$> List.filter cond rows.
Proof.
  intros Hkeep. unfold update_rows.
  induction rows as [|r rows IH]; [reflexivity|].
  cbn. destruct (cond r) eqn:Hc.
  - rewrite (Hkeep _ Hc). cbn. by rewrite <- IH.
  - rewrite Hc. apply IH.
Qed.

(** The row [upsertUser] writes over a stored row. *)
Lemma upsertUser_run dflt now userData db :
  upsertUser dflt now userData db =
  match user_row (UpsertUser.id userData) db with
  | Some old =>
      let set := λ old,
        {| User.id := UpsertUser.id userData;
           User.email := if_defined (UpsertUser.email userData) (User.email old);
           User.ecoPoints :=
             if_defined (UpsertUser.ecoPoints userData) (User.ecoPoints old);
           User.carbonFootprint :=
             if_defined (UpsertUser.carbonFootprint userData)
                        (User.carbonFootprint old);
           User.updatedAt := Some now |} in
      (Returned (set old),
       with_users
         (update_rows (λ u, String.eqb (User.id u) (UpsertUser.id userData)) set
            (users db)) db)
  | None =>
      let row :=
        {| User.id := UpsertUser.id userData;
           User.email := if_defined (UpsertUser.email userData) None;
           User.ecoPoints :=
             if_defined (UpsertUser.ecoPoints userData) (user_ecoPoints dflt);
           User.carbonFootprint :=
             if_defined (UpsertUser.carbonFootprint userData)
                        (user_carbonFootprint dflt);
           User.updatedAt := user_updatedAt dflt now |} in
      (Returned row, with_users (users db ++ [row]) db)
  end.
Proof.
  unfold upsertUser, upsert_returning, user_row.
  rewrite find_head_filter. cbn.
  by destruct (head (List.filter _ (users db))).
Qed.

(** X9. What [upsertUser] returns is what [getUser] then finds: after
    [upsertUser(userData)], [getUser(userData.id)] returns the very row the
    upsert returned, and that row carries the id of userData. *)
Theorem upsertUser_then_getUser dflt now userData db :
  ∃ user,
    (upsertUser dflt now userData db).1 = Returned user
    ∧ User.id user = UpsertUser.id userData
    ∧ getUser (UpsertUser.id userData) (upsertUser dflt now userData db).2
      = (Returned (Some user), (upsertUser dflt now userData db).2).
Proof.
  rewrite upsertUser_run.
  destruct (user_row (UpsertUser.id userData) db) as [old|] eqn:Hold; cbn zeta.
  - eexists. split; [reflexivity|]. split; [reflexivity|].
    unfold getUser, bind, select_from, ret. cbn [fst snd].
    do 2 f_equal.
    unfold user_row in Hold. cbn [users with_users].
    rewrite filter_update_rows_hit by (intros u _; cbn; apply String.eqb_refl).
    destruct (List.filter _ (users db)) as [|first rest]; [discriminate|].
    cbn in *. by injection Hold as ->.
  - eexists. split; [reflexivity|]. split; [reflexivity|].
    unfold getUser, bind, select_from, ret. cbn [fst snd].
    do 2 f_equal.
    unfold user_row in Hold. cbn [users with_users].
    rewrite List.filter_app, (filter_none _ _ Hold). cbn.
    by rewrite String.eqb_refl.
Qed.

(** X10. On a user that is already stored, [upsertUser] adds no row and
    writes to the stored row exactly the columns userData carries: a column
    whose key is absent keeps the stored value (a userData without ecoPoints
    leaves the balance as it is), a column that is given takes the given
    value, [null] included; updatedAt becomes the time of the call. The row
    returned is the row that is stored afterwards, and every other user
    stays as it was. *)
Theorem upsertUser_keeps_columns_not_given dflt now userData db old :
  user_row (UpsertUser.id userData) db = Some old →
  ∃ user,
    (upsertUser dflt now userData db).1 = Returned user
    ∧ user_row (UpsertUser.id userData) (upsertUser dflt now userData db).2
      = Some user
    ∧ (UpsertUser.ecoPoints userData = None →
       User.ecoPoints user = User.ecoPoints old)
    ∧ (UpsertUser.email userData = None → User.email user = User.email old)
    ∧ (UpsertUser.carbonFootprint userData = None →
       User.carbonFootprint user = User.carbonFootprint old)
    ∧ (∀ v, UpsertUser.ecoPoints userData = Some v → User.ecoPoints user = v)
    ∧ (∀ v, UpsertUser.email userData = Some v → User.email user = v)
    ∧ (∀ v, UpsertUser.carbonFootprint userData = Some v →
            User.carbonFootprint user = v)
    ∧ User.updatedAt user = Some now
    ∧ length (users (upsertUser dflt now userData db).2) = length (users db)
    ∧ (∀ other, other ≠ UpsertUser.id userData →
         user_row other (upsertUser dflt now userData db).2 = user_row other db).
Proof.
  intros Hold. rewrite upsertUser_run, Hold. cbn zeta.
  eexists. split; [reflexivity|]. cbn [fst snd]. split.
  { unfold user_row in *. cbn [users with_users].
    rewrite filter_update_rows_hit by (intros u _; cbn; apply String.eqb_refl).
    destruct (List.filter _ (users db)) as [|first rest]; [discriminate|].
    cbn in *. by injection Hold as ->. }
  cbn [User.ecoPoints User.email User.carbonFootprint User.updatedAt].
  split; [by intros ->|]. split; [by intros ->|]. split; [by intros ->|].
  split; [by intros v ->|]. split; [by intros v ->|]. split; [by intros v ->|].
  split; [reflexivity|].
  split; [cbn; apply update_rows_length|].
  intros other Hne. unfold user_row. cbn [users with_users].
  rewrite filter_update_rows_other; [done| |].
  - intros u Hu. apply String.eqb_eq in Hu. apply String.eqb_neq. congruence.
  - intros u _. cbn. apply String.eqb_neq. congruence.
Qed.

Lemma upsertUser_keeps_columns_not_given_witness :
  user_row "alice"
    (upsertUser sample_defaults 7000
       {| UpsertUser.id := "alice";
          UpsertUser.email := Some (Some "a@example.org");
          UpsertUser.ecoPoints := None;
          UpsertUser.carbonFootprint := Some None |}
       sample_db).2
  = Some {| User.id := "alice"; User.email := Some "a@example.org";
            User.ecoPoints := Some 120; User.carbonFootprint := None;
            User.updatedAt := Some 7000 |}.
Proof.
  destruct (upsertUser_keeps_columns_not_given sample_defaults 7000
              {| UpsertUser.id := "alice";
                 UpsertUser.email := Some (Some "a@example.org");
                 UpsertUser.ecoPoints := None;
                 UpsertUser.carbonFootprint := Some None |}
              sample_db alice eq_refl)
    as (user & Hrun & Hstored & Hpoints & _ & _ & _ & Hemail & Hfootprint
        & Hupdated & _).
  etrans; [exact Hstored|]. f_equal.
  injection Hrun as <-. reflexivity.
Defined.

(** X11. [getUser] returns a row only under the id asked for: a returned
    user is a stored row with that id, and [undefined] is returned exactly
    when no stored user has the id. *)
Theorem getUser_by_id id db :
  ∃ found,
    getUser id db = (Returned found, db)
    ∧ (∀ user, found = Some user → user ∈ users db ∧ User.id user = id)
    ∧ (found = None ↔ id ∉ User.id <$> users db).
Proof.
  eexists. split; [reflexivity|]. split.
  - intros user Hfound.
    destruct (List.filter _ (users db)) as [|first rest] eqn:Hrows;
      [discriminate|].
    cbn in Hfound. injection Hfound as ->.
    assert (Hin : user ∈ List.filter (λ u, String.eqb (User.id u) id) (users db))
      by (rewrite Hrows; left).
    apply elem_of_filter_bool in Hin as [? ?%String.eqb_eq]. done.
  - rewrite list_elem_of_fmap. split.
    + intros Hnone (user & -> & Hin).
      apply filter_none in Hnone.
      assert (Hhit : user ∈ List.filter
                (λ u, String.eqb (User.id u) (User.id user)) (users db))
        by (apply elem_of_filter_bool; split; [done | apply String.eqb_refl]).
      rewrite Hnone in Hhit. by apply elem_of_nil in Hhit.
    + intros Hnone.
      destruct (List.filter _ (users db)) as [|first rest] eqn:Hrows;
        [reflexivity|].
      exfalso. apply Hnone. exists first.
      assert (Hin : first ∈ List.filter (λ u, String.eqb (User.id u) id) (users db))
        by (rewrite Hrows; left).
      apply elem_of_filter_bool in Hin as [? ?%String.eqb_eq]. done.
Qed.

Lemma getUser_by_id_witness :
  ∃ found,
    getUser "alice" sample_db = (Returned found, sample_db)
    ∧ found = Some alice.
Proof.
  destruct (getUser_by_id "alice" sample_db) as (found & Hrun & Hsome & _).
  exists found. split; [exact Hrun|].
  injection Hrun as <-. reflexivity.
Defined.

(** ** Keys stay unique *)

Lemma update_rows_key_list {R K} (key : R → K) (cond : R → bool) (set : R → R) rows :
  (∀ r, cond r = true → key (set r) = key r) →
  key <$> update_rows cond set rows = key <$> rows.
Proof.
  intros Hkey. unfold update_rows. rewrite <- list_fmap_compose.
  apply list_fmap_ext. intros _ r _. cbn.
  destruct (cond r) eqn:Hc; [by apply Hkey | done].
Qed.

Lemma NoDup_key_insert {R K} (key : R → K) rows row :
  NoDup (key <$> rows) → key row ∉ key <$> rows →
  NoDup (key <$> rows ++ [row]).
Proof.
  intros Hrows Hfresh. rewrite fmap_app. cbn.
  apply NoDup_app. split; [done|]. split; [|apply NoDup_singleton].
  intros k Hk ->%list_elem_of_singleton. done.
Qed.

Lemma next_id_not_stored (ids : list Z) : next_id ids ∉ ids.
Proof. intros Hin. apply next_id_fresh in Hin. lia. Qed.

Lemma no_match_no_key {R K} (key : R → K) (f : R → bool) rows k :
  (∀ r, key r = k → f r = true) →
  List.filter f rows = [] → k ∉ key <$> rows.
Proof.
  intros Hf Hnone (r & -> & Hin)%list_elem_of_fmap.
  assert (Hhit : r ∈ List.filter f rows)
    by (apply elem_of_filter_bool; auto).
  rewrite Hnone in Hhit. by apply elem_of_nil in Hhit.
Qed.

Ltac keys_kept :=
  first
    [ assumption
    | rewrite update_rows_key_list;
      [ assumption
      | let Hcond := fresh "Hcond" in
        intros ? Hcond; cbn; first
          [ reflexivity
          | apply String.eqb_eq in Hcond; congruence ] ]
    | apply NoDup_key_insert; [assumption | cbn; apply next_id_not_stored] ].

Lemma after_unique_keys {num} dflt (zero : num) add truthy parseFloat toText
    call db :
  unique_keys db →
  unique_keys (after dflt zero add truthy parseFloat toText call db).
Proof.
  intros Hkeys. destruct call; cbn [after]; try exact Hkeys;
    unfold unique_keys in *;
    destruct Hkeys as (Hu & Hw & Hp & Hc & He & Hep & Hch & Hpr & Hr & Hur).
  - (* upsertUser *)
    rewrite upsertUser_run.
    destruct (user_row (UpsertUser.id userData) db) as [old|] eqn:Hold;
      cbn -[update_rows]; repeat split; try keys_kept.
    apply NoDup_key_insert; [done|]. cbn.
    eapply no_match_no_key; [|apply filter_none, Hold].
    intros u Hid. cbn. rewrite Hid. apply String.eqb_refl.
  - (* createWasteEntry *)
    unfold createWasteEntry, bind, insert_serial, update_where, ret.
    cbn -[update_rows]; repeat split; keys_kept.
  - unfold createPickupSchedule, insert_serial. cbn -[update_rows]; repeat split; keys_kept.
  - unfold updatePickupScheduleStatus, bind, update_where, ret.
    cbn -[update_rows]; repeat split; keys_kept.
  - unfold createCommunityReport, insert_serial. cbn -[update_rows]; repeat split; keys_kept.
  - unfold updateCommunityReportStatus, bind, update_where, ret.
    cbn -[update_rows]; repeat split; keys_kept.
  - unfold createCleanupEvent, insert_serial. cbn -[update_rows]; repeat split; keys_kept.
  - (* joinCleanupEvent *)
    rewrite joinCleanupEvent_run.
    destruct (participant_rows eventId userId db) eqn:Hrows;
      cbn -[update_rows]; repeat split; try keys_kept.
    apply NoDup_key_insert; [done|]. cbn.
    eapply no_match_no_key; [|exact Hrows].
    intros p [= Hfirst Hsecond]. cbn.
    by rewrite Hfirst, Hsecond, Z.eqb_refl, String.eqb_refl.
  - (* updateChallengeProgress *)
    rewrite updateChallengeProgress_run.
    destruct (progress_rows userId challengeId db) eqn:Hrows;
      cbn -[update_rows]; repeat split; try keys_kept.
    apply NoDup_key_insert; [done|]. cbn.
    eapply no_match_no_key; [|exact Hrows].
    intros p [= Hfirst Hsecond]. cbn.
    by rewrite Hfirst, Hsecond, Z.eqb_refl, String.eqb_refl.
  - (* redeemReward *)
    rewrite redeemReward_run.
    destruct (reward_row rewardId db); [|by repeat split].
    destruct (user_row userId db); [|by repeat split].
    destruct (_ <? _); [by repeat split|].
    cbn -[update_rows]; repeat split; keys_kept.
Qed.

(** X12. Keys stay unique. If no two users share an id, no two rows of a
    table with a serial id share it, no two participant rows share
    (eventId, userId) and no two progress rows share (userId, challengeId),
    then the same holds after any sequence of calls: [upsertUser] never
    stores a second row for an id, the conflict-skipping insert and the
    progress upsert never a second row for their key, and every other
    insert takes a fresh serial id. *)
Theorem unique_keys_invariant {num} dflt (zero : num) add truthy parseFloat
    toText (calls : list Call) (db : DB) :
  unique_keys db →
  unique_keys (after_all dflt zero add truthy parseFloat toText calls db).
Proof.
  revert db. induction calls as [|call calls IH]; intros db Hkeys; [done|].
  cbn. apply IH. by apply after_unique_keys.
Qed.

Lemma unique_keys_invariant_witness :
  unique_keys
    (after_all sample_defaults 0 Z.add (λ n, negb (n =? 0)) parse_integer
       number_to_string
       [CallJoinCleanupEvent 5000 7 "alice";
        CallJoinCleanupEvent 5100 7 "alice";
        CallUpsertUser 6000
          {| UpsertUser.id := "alice"; UpsertUser.email := None;
             UpsertUser.ecoPoints := None; UpsertUser.carbonFootprint := None |};
        CallRedeemReward 1700000000000 "0.4fzyo82mvyr" "alice" 1]
       sample_db).
Proof.
  apply unique_keys_invariant.
  unfold unique_keys. cbn.
  repeat split; by apply (bool_decide_unpack _).
Defined.

(** ** Pickup schedules *)

Lemma update_rows_no_match {R} (cond : R → bool) (set : R → R) rows :
  List.filter cond rows = [] → update_rows cond set rows = rows.
Proof.
  unfold update_rows. induction rows as [|r rows IH]; [reflexivity|].
  cbn. destruct (cond r); [discriminate|].
  intros Hnone. by rewrite IH.
Qed.

(** X13. A status update for an id that no row has does nothing:
    [updatePickupScheduleStatus] and [updateCommunityReportStatus] then
    return [undefined] and leave the database as it was. *)
Theorem status_update_of_missing_id now id status db :
  (schedule_row id db = None →
     updatePickupScheduleStatus now id status db = (Returned None, db))
  ∧ (report_row id db = None →
     updateCommunityReportStatus now id status db = (Returned None, db)).
Proof.
  split; intros Hnone%filter_none.
  - unfold updatePickupScheduleStatus, bind, update_where, ret. cbn beta iota.
    rewrite update_rows_no_match, Hnone by exact Hnone. by destruct db.
  - unfold updateCommunityReportStatus, bind, update_where, ret. cbn beta iota.
    rewrite update_rows_no_match, Hnone by exact Hnone. by destruct db.
Qed.

Lemma status_update_of_missing_id_witness :
  updatePickupScheduleStatus 5000 3 "completed" sample_db
  = (Returned None, sample_db)
  ∧ updateCommunityReportStatus 5000 9 "resolved" sample_db
    = (Returned None, sample_db).
Proof.
  destruct (status_update_of_missing_id 5000 3 "completed" sample_db)
    as (Hschedule & _).
  destruct (status_update_of_missing_id 5000 9 "resolved" sample_db)
    as (_ & Hreport).
  split; [exact (Hschedule eq_refl) | exact (Hreport eq_refl)].
Defined.

(** X14. [updatePickupScheduleStatus] on a stored schedule stores the given
    status and returns the updated row. It stamps completedAt with the time
    of the call when the status is 'completed' and otherwise keeps the
    completedAt the row had, so a schedule moved away from 'completed'
    still carries its completion time; no other schedule changes. *)
Theorem updatePickupScheduleStatus_stamps_completion now id status db schedule :
  schedule_row id db = Some schedule →
  ∃ schedule',
    (updatePickupScheduleStatus now id status db).1 = Returned (Some schedule')
    ∧ schedule_row id (updatePickupScheduleStatus now id status db).2
      = Some schedule'
    ∧ PickupSchedule.status schedule' = Some status
    ∧ PickupSchedule.completedAt schedule'
      = (if String.eqb status "completed" then Some now
         else PickupSchedule.completedAt schedule)
    ∧ PickupSchedule.userId schedule' = PickupSchedule.userId schedule
    ∧ PickupSchedule.scheduledDate schedule'
      = PickupSchedule.scheduledDate schedule
    ∧ (∀ other, other ≠ id →
         schedule_row other (updatePickupScheduleStatus now id status db).2
         = schedule_row other db).
Proof.
  intros Hschedule.
  unfold updatePickupScheduleStatus, bind, update_where, ret. cbn [fst snd].
  unfold schedule_row in *. cbn [pickupSchedules with_pickupSchedules].
  rewrite filter_update_rows_same by reflexivity.
  destruct (List.filter _ (pickupSchedules db)) as [|first rest] eqn:Hrows;
    [discriminate|].
  injection Hschedule as ->.
  eexists. split; [reflexivity|]. split; [reflexivity|]. cbn.
  split; [reflexivity|]. split; [by destruct (String.eqb status "completed")|].
  split; [reflexivity|]. split; [reflexivity|].
  intros other Hne. rewrite filter_update_rows_other; [done| |].
  - intros r Hr. apply Z.eqb_eq in Hr. apply Z.eqb_neq. congruence.
  - intros r Hr. apply Z.eqb_eq in Hr. cbn. apply Z.eqb_neq. congruence.
Qed.

Lemma updatePickupScheduleStatus_stamps_completion_witness :
  ∃ schedule',
    schedule_row 1 (updatePickupScheduleStatus 9000 1 "scheduled" busy_db).2
    = Some schedule'
    ∧ PickupSchedule.status schedule' = Some "scheduled"
    ∧ PickupSchedule.completedAt schedule' = Some 7000.
Proof.
  destruct (updatePickupScheduleStatus_stamps_completion 9000 1 "scheduled"
              busy_db completed_pickup eq_refl)
    as (schedule' & _ & Hrow & Hstatus & Hcompleted & _).
  exists schedule'. split; [exact Hrow|]. split; [exact Hstatus|exact Hcompleted].
Defined.

Lemma filter_serial_insert {R} (id : R → Z) rows row :
  id row = next_id (id <$> rows) →
  List.filter (λ r, id r =? id row) (rows ++ [row]) = [row].
Proof.
  intros Hid. rewrite List.filter_app. cbn. rewrite Z.eqb_refl.
  replace (List.filter (λ r, id r =? id row) rows) with (@nil R); [done|].
  symmetry. destruct (List.filter _ rows) as [|r rest] eqn:Hrows; [done|].
  assert (Hin : r ∈ List.filter (λ r, id r =? id row) rows)
    by (rewrite Hrows; left).
  apply elem_of_filter_bool in Hin as [Hin Heq%Z.eqb_eq].
  assert (Hlt : id r < next_id (id <$> rows)).
  { apply next_id_fresh, list_elem_of_fmap. eauto. }
  lia.
Qed.

(** X15. A schedule can be addressed by the id [createPickupSchedule]
    returns: the created row has no completion time, it is listed by
    [getUserPickupSchedules] of its user, and [updatePickupScheduleStatus]
    on its id returns that same schedule with the new status, stamped with
    the time of the call exactly when the status is 'completed'. *)
Theorem createPickupSchedule_then_update dflt schedule now status db :
  ∃ created listed updated,
    (createPickupSchedule dflt schedule db).1 = Returned created
    ∧ PickupSchedule.userId created = InsertPickupSchedule.userId schedule
    ∧ PickupSchedule.completedAt created = None
    ∧ getUserPickupSchedules (InsertPickupSchedule.userId schedule)
        (createPickupSchedule dflt schedule db).2
      = (Returned listed, (createPickupSchedule dflt schedule db).2)
    ∧ created ∈ listed
    ∧ (updatePickupScheduleStatus now (PickupSchedule.id created) status
         (createPickupSchedule dflt schedule db).2).1
      = Returned (Some updated)
    ∧ PickupSchedule.id updated = PickupSchedule.id created
    ∧ PickupSchedule.userId updated = PickupSchedule.userId created
    ∧ PickupSchedule.scheduledDate updated
      = InsertPickupSchedule.scheduledDate schedule
    ∧ PickupSchedule.status updated = Some status
    ∧ PickupSchedule.completedAt updated
      = (if String.eqb status "completed" then Some now else None).
Proof.
  unfold createPickupSchedule, insert_serial. cbn [fst snd].
  set (created := {| PickupSchedule.id := next_id _ |}).
  eexists created, _, _. split; [reflexivity|].
  split; [reflexivity|]. split; [reflexivity|].
  split; [reflexivity|]. split.
  { rewrite order_by_desc_permutation, elem_of_filter_bool.
    cbn. split; [set_solver | apply String.eqb_refl]. }
  unfold updatePickupScheduleStatus, bind, update_where, ret. cbn [fst snd].
  cbn [pickupSchedules with_pickupSchedules].
  rewrite (filter_serial_insert PickupSchedule.id (pickupSchedules db) created)
    by reflexivity.
  cbn. split; [reflexivity|]. repeat (split; [reflexivity|]).
  by destruct (String.eqb status "completed").
Qed.

(** ** More on [createWasteEntry] *)

Lemma add_ecoPoints_zero u : add_ecoPoints 0 u = u.
Proof.
  destruct u as [id email points footprint updated]. unfold add_ecoPoints. cbn.
  f_equal. destruct points as [p|]; cbn; [f_equal; lia | reflexivity].
Qed.

Lemma update_rows_identity {R} (cond : R → bool) (set : R → R) rows :
  (∀ r, set r = r) → update_rows cond set rows = rows.
Proof.
  intros Hset. unfold update_rows. induction rows as [|r rows IH]; [done|].
  cbn. rewrite IH. by destruct (cond r); rewrite ?Hset.
Qed.

(** X16. A waste entry that carries no ecoPointsEarned, or carries 0, earns
    nothing: [createWasteEntry] stores the entry and leaves the users table
    exactly as it was. *)
Theorem createWasteEntry_without_points dflt now entry db :
  InsertWasteEntry.ecoPointsEarned entry = None
  ∨ InsertWasteEntry.ecoPointsEarned entry = Some 0 →
  users (createWasteEntry dflt now entry db).2 = users db
  ∧ length (wasteEntries (createWasteEntry dflt now entry db).2)
    = S (length (wasteEntries db)).
Proof.
  intros Hnone.
  assert (Hzero : or_zero (InsertWasteEntry.ecoPointsEarned entry) = 0)
    by (destruct Hnone as [-> | ->]; reflexivity).
  unfold createWasteEntry, bind, insert_serial, update_where, ret.
  cbn [fst snd]. rewrite Hzero. cbn [users with_users with_wasteEntries
                                      wasteEntries].
  split; [apply update_rows_identity, add_ecoPoints_zero|].
  rewrite length_app. cbn. lia.
Qed.

Lemma createWasteEntry_without_points_witness :
  users (createWasteEntry sample_defaults 3000
           {| InsertWasteEntry.userId := "alice";
              InsertWasteEntry.wasteType := "paper";
              InsertWasteEntry.quantity := "1";
              InsertWasteEntry.ecoPointsEarned := None |} sample_db).2
  = users sample_db.
Proof.
  apply (createWasteEntry_without_points sample_defaults 3000
           {| InsertWasteEntry.userId := "alice";
              InsertWasteEntry.wasteType := "paper";
              InsertWasteEntry.quantity := "1";
              InsertWasteEntry.ecoPointsEarned := None |} sample_db).
  left. reflexivity.
Defined.

Section AnalyticsAfterEntry.
Context {num : Type} (zero : num) (add : num → num → num)
        (truthy : num → bool) (parseFloat : string → num)
        (toText : num → string).

(** X17. The analytics follow a new entry. After [createWasteEntry] of an
    entry of a user, [getUserAnalytics] of that user counts one entry more,
    and wasteByType is as before at every other waste type. At the entry's
    waste type, when that is not the name of an inherited property, the
    parsed quantity is the new value if there was none or a falsy one, and
    is added to the number that was there otherwise. When the user has an
    integer balance, totalEcoPoints is higher by [ecoPointsEarned || 0]. *)
Theorem createWasteEntry_then_getUserAnalytics dflt now entry db :
  let userId := InsertWasteEntry.userId entry in
  let wasteType := InsertWasteEntry.wasteType entry in
  let quantity := parseFloat (InsertWasteEntry.quantity entry) in
  let db' := (createWasteEntry dflt now entry db).2 in
  ∃ before after,
    getUserAnalytics zero add truthy parseFloat toText userId db
    = (Returned before, db)
    ∧ getUserAnalytics zero add truthy parseFloat toText userId db'
      = (Returned after, db')
    ∧ totalWasteEntries after = S (totalWasteEntries before)
    ∧ (∀ other, other ≠ wasteType →
         wasteByType after !! other = wasteByType before !! other)
    ∧ (inherited_text wasteType = None →
       (wasteByType before !! wasteType = None →
        wasteByType after !! wasteType = Some (Number (add zero quantity)))
       ∧ (∀ n, wasteByType before !! wasteType = Some (Number n) →
               truthy n = true →
               wasteByType after !! wasteType = Some (Number (add n quantity)))
       ∧ (∀ n, wasteByType before !! wasteType = Some (Number n) →
               truthy n = false →
               wasteByType after !! wasteType
               = Some (Number (add zero quantity))))
    ∧ (∀ user p,
         user_row userId db = Some user →
         User.ecoPoints user = Some p →
         totalEcoPoints after
         = totalEcoPoints before
           + or_zero (InsertWasteEntry.ecoPointsEarned entry)).
Proof.
  cbn zeta.
  unfold getUserAnalytics, createWasteEntry, bind, select_from, insert_serial,
    update_where, ret.
  cbn [fst snd users wasteEntries with_users with_wasteEntries].
  eexists _, _. split; [reflexivity|]. split; [reflexivity|].
  cbn [totalWasteEntries wasteByType totalEcoPoints].
  rewrite List.filter_app. cbn [List.filter WasteEntry.userId].
  rewrite String.eqb_refl.
  split; [rewrite length_app; cbn; lia|].
  rewrite foldl_app. cbn [foldl].
  set (acc := foldl _ ∅ _).
  split; [|split].
  - intros other Hne. by rewrite tally_other.
  - intros Hown. unfold tally, assign, or_zero_operand.
    cbn [WasteEntry.wasteType WasteEntry.quantity].
    rewrite (not_inherited_not_proto _ Hown), lookup_insert_eq, Hown.
    split; [by intros ->|]. split; intros n -> Hn; by rewrite Hn.
  - intros user p Huser Hp. unfold user_row in Huser.
    rewrite filter_update_rows_same by reflexivity.
    destruct (List.filter _ (users db)) as [|first rest]; [discriminate|].
    injection Huser as ->.
    set (earned := or_zero (InsertWasteEntry.ecoPointsEarned entry)).
    cbn -[or_zero]. rewrite Hp. cbn -[or_zero].
    by rewrite !or_zero_default.
Qed.

End AnalyticsAfterEntry.

Lemma createWasteEntry_then_getUserAnalytics_witness :
  ∃ after,
    (getUserAnalytics 0 Z.add (λ n, negb (n =? 0)) parse_integer number_to_string
       "alice"
       (createWasteEntry sample_defaults 3000
          {| InsertWasteEntry.userId := "alice";
             InsertWasteEntry.wasteType := "plastic";
             InsertWasteEntry.quantity := "4";
             InsertWasteEntry.ecoPointsEarned := Some 15 |} sample_db).2).1
    = Returned after
    ∧ totalWasteEntries after = 3%nat
    ∧ wasteByType after !! "plastic" = Some (Number 9)
    ∧ totalEcoPoints after = 135.
Proof.
  destruct (createWasteEntry_then_getUserAnalytics 0 Z.add (λ n, negb (n =? 0))
              parse_integer number_to_string sample_defaults 3000
              {| InsertWasteEntry.userId := "alice";
                 InsertWasteEntry.wasteType := "plastic";
                 InsertWasteEntry.quantity := "4";
                 InsertWasteEntry.ecoPointsEarned := Some 15 |} sample_db)
    as (before & after & Hbefore & Hafter & Hcount & _ & Htype & Hpoints).
  exists after. split; [exact (f_equal fst Hafter)|].
  injection Hbefore as <-.
  split; [exact Hcount|]. split.
  - destruct (Htype eq_refl) as (_ & Hadd & _).
    exact (Hadd 5 eq_refl eq_refl).
  - exact (Hpoints alice 120 eq_refl eq_refl).
Defined.

(** ** More on [joinCleanupEvent] *)

(** X18. A first join counts once, and is never refused. When the pair
    (eventId, userId) has no participant row, [joinCleanupEvent] adds one
    participant row to the event and one to its currentParticipants, and
    touches no other event. It does so whatever maxParticipants is: the
    counter of a full event goes above its maximum. *)
Theorem joinCleanupEvent_first_join dflt now eventId userId db event n :
  participant_rows eventId userId db = [] →
  event_row eventId db = Some event →
  CleanupEvent.currentParticipants event = Some n →
  let db' := (joinCleanupEvent dflt now eventId userId db).2 in
  joinCleanupEvent dflt now eventId userId db = (Returned (), db')
  ∧ length (participants_of eventId db') = S (length (participants_of eventId db))
  ∧ length (participant_rows eventId userId db') = 1%nat
  ∧ (∃ event',
       event_row eventId db' = Some event'
       ∧ CleanupEvent.currentParticipants event' = Some (n + 1)
       ∧ CleanupEvent.maxParticipants event' = CleanupEvent.maxParticipants event)
  ∧ (∀ other, other ≠ eventId →
       event_row other db' = event_row other db
       ∧ participants_of other db' = participants_of other db).
Proof.
  intros Hfresh Hevent Hn db'.
  split; [subst db'; by rewrite joinCleanupEvent_run|].
  assert (Hrows : eventParticipants db'
                  = eventParticipants db
                    ++ [{| EventParticipant.eventId := eventId;
                           EventParticipant.userId := userId;
                           EventParticipant.joinedAt :=
                             eventParticipant_joinedAt dflt now |}]).
  { subst db'. rewrite joinCleanupEvent_run, Hfresh. reflexivity. }
  split; [|split; [|split]].
  - unfold participants_of. rewrite Hrows, List.filter_app, length_app. cbn.
    rewrite Z.eqb_refl. cbn. lia.
  - subst db'. by rewrite participant_rows_after_join, Hfresh.
  - exists (add_participant event). subst db'.
    rewrite event_row_after_join, Hevent. cbn. by rewrite Hn.
  - intros other Hne. split.
    + subst db'. rewrite joinCleanupEvent_run, Hfresh. cbn [snd].
      unfold event_row. cbn [cleanupEvents with_cleanupEvents
                               with_eventParticipants].
      rewrite filter_update_rows_other; [done| |].
      * intros e He. apply Z.eqb_eq in He. apply Z.eqb_neq. congruence.
      * intros e He. apply Z.eqb_eq in He. cbn. apply Z.eqb_neq. congruence.
    + unfold participants_of. rewrite Hrows, List.filter_app. cbn.
      destruct (Z.eqb_spec eventId other); [congruence|]. apply app_nil_r.
Qed.

Lemma joinCleanupEvent_first_join_witness :
  ∃ event',
    event_row 8 (joinCleanupEvent sample_defaults 5000 8 "bob" busy_db).2
    = Some event'
    ∧ CleanupEvent.currentParticipants event' = Some 3
    ∧ CleanupEvent.maxParticipants event' = Some 2.
Proof.
  destruct (joinCleanupEvent_first_join sample_defaults 5000 8 "bob" busy_db
              full_event 2 eq_refl eq_refl eq_refl)
    as (_ & _ & _ & (event' & Hrow & Hcount & Hmax) & _).
  exists event'. split; [exact Hrow|]. split; [exact Hcount | exact Hmax].
Defined.

(** ** More on [updateChallengeProgress] *)

Lemma progress_rows_after_update dflt now userId challengeId progress db :
  progress_rows userId challengeId
    (updateChallengeProgress dflt now userId challengeId progress db).2
  = match progress_rows userId challengeId db with
    | [] => [{| UserChallengeProgress.userId := userId;
                UserChallengeProgress.challengeId := challengeId;
                UserChallengeProgress.currentProgress := Some progress;
                UserChallengeProgress.createdAt :=
                  userChallengeProgress_createdAt dflt now |}]
    | rows => add_progress progress <$> rows
    end.
Proof.
  rewrite updateChallengeProgress_run. cbn [snd].
  destruct (progress_rows userId challengeId db) as [|r rows] eqn:Hrows.
  - unfold progress_rows in *. cbn.
    rewrite List.filter_app, Hrows. cbn.
    by rewrite String.eqb_refl, Z.eqb_refl.
  - rewrite <- Hrows. unfold progress_rows. cbn.
    by rewrite filter_update_rows_same.
Qed.

Lemma progress_rows_other_after_update
    dflt now userId challengeId progress db userId' challengeId' :
  (userId', challengeId') ≠ (userId, challengeId) →
  progress_rows userId' challengeId'
    (updateChallengeProgress dflt now userId challengeId progress db).2
  = progress_rows userId' challengeId' db.
Proof.
  intros Hne. rewrite updateChallengeProgress_run. cbn [snd].
  assert (Hmiss : ∀ u c, String.eqb u userId && (c =? challengeId) = true →
                         String.eqb u userId' && (c =? challengeId') = false).
  { intros u c [->%String.eqb_eq ->%Z.eqb_eq]%andb_prop.
    apply andb_false_iff.
    destruct (String.eqb_spec userId userId') as [->|]; [|by left].
    right. apply Z.eqb_neq. congruence. }
  destruct (progress_rows userId challengeId db) as [|r rows];
    unfold progress_rows; cbn.
  - rewrite List.filter_app. cbn.
    rewrite (Hmiss userId challengeId)
      by (by rewrite String.eqb_refl, Z.eqb_refl).
    apply app_nil_r.
  - rewrite filter_update_rows_other; [done| |].
    + intros p Hp. by apply Hmiss.
    + intros p Hp. cbn. by apply Hmiss.
Qed.

(** X19. Progress adds up. Two calls of [updateChallengeProgress] for the
    same (userId, challengeId), with progress p and then q, leave one row
    for the key holding p + q when there was none, and holding n + p + q
    when the one row there was held n; rows of every other key are as they
    were. *)
Theorem updateChallengeProgress_adds_up
    dflt now1 now2 userId challengeId p q db :
  let db1 := (updateChallengeProgress dflt now1 userId challengeId p db).2 in
  let db2 := (updateChallengeProgress dflt now2 userId challengeId q db1).2 in
  (progress_rows userId challengeId db = [] →
     ∃ row, progress_rows userId challengeId db2 = [row]
            ∧ UserChallengeProgress.currentProgress row = Some (p + q))
  ∧ (∀ old n,
       progress_rows userId challengeId db = [old] →
       UserChallengeProgress.currentProgress old = Some n →
       ∃ row, progress_rows userId challengeId db2 = [row]
              ∧ UserChallengeProgress.currentProgress row = Some (n + p + q))
  ∧ (∀ userId' challengeId',
       (userId', challengeId') ≠ (userId, challengeId) →
       progress_rows userId' challengeId' db2
       = progress_rows userId' challengeId' db).
Proof.
  intros db1 db2. split; [|split].
  - intros Hnone. subst db2 db1.
    rewrite !progress_rows_after_update, Hnone. eexists. split; [reflexivity|].
    reflexivity.
  - intros old n Hold Hn. subst db2 db1.
    rewrite !progress_rows_after_update, Hold. eexists. split; [reflexivity|].
    cbn. rewrite Hn. reflexivity.
  - intros userId' challengeId' Hne. subst db2 db1.
    by rewrite !progress_rows_other_after_update.
Qed.

Lemma updateChallengeProgress_adds_up_witness :
  (∃ row,
     progress_rows "bob" 4
       (updateChallengeProgress sample_defaults 4100 "bob" 4 2
          (updateChallengeProgress sample_defaults 4000 "bob" 4 3 sample_db).2).2
     = [row]
     ∧ UserChallengeProgress.currentProgress row = Some 5)
  ∧ (∃ row,
       progress_rows "alice" 4
         (updateChallengeProgress sample_defaults 4100 "alice" 4 2
            (updateChallengeProgress sample_defaults 4000 "alice" 4 3
               sample_db).2).2
       = [row]
       ∧ UserChallengeProgress.currentProgress row = Some 10).
Proof.
  split.
  - destruct (updateChallengeProgress_adds_up sample_defaults 4000 4100 "bob" 4
                3 2 sample_db) as (Hnew & _).
    exact (Hnew eq_refl).
  - destruct (updateChallengeProgress_adds_up sample_defaults 4000 4100 "alice"
                4 3 2 sample_db) as (_ & Hold & _).
    exact (Hold _ 5 eq_refl eq_refl).
Defined.

(** ** Redemption codes tell calls apart *)

Lemma to_int_not_nil n : Z.to_int n ≠ Decimal.Pos Decimal.Nil
                         ∧ Z.to_int n ≠ Decimal.Neg Decimal.Nil.
Proof.
  destruct n as [|p|p]; cbn; split; try discriminate;
    intros [= Hnil]; by apply DecimalPos.Unsigned.to_uint_nonnil in Hnil.
Qed.

Lemma number_to_string_inj a b :
  number_to_string a = number_to_string b → a = b.
Proof.
  unfold number_to_string. intros Heq.
  apply (f_equal NilZero.int_of_string) in Heq.
  destruct (to_int_not_nil a) as [? ?], (to_int_not_nil b) as [? ?].
  rewrite !NilZero.isi in Heq by done.
  injection Heq as Heq. by apply DecimalZ.to_int_inj.
Qed.

Lemma split_at_hyphen a b x y :
  all_chars is_decimal_digit a = true →
  all_chars is_decimal_digit b = true →
  a +:+ String "-" x = b +:+ String "-" y →
  a = b ∧ x = y.
Proof.
  revert b. induction a as [|c a IH]; intros [|d b] Ha Hb Heq.
  - by injection Heq as ->.
  - rewrite append_cons in Heq. injection Heq as <- _.
    cbn in Hb. discriminate.
  - rewrite append_cons in Heq. injection Heq as -> _.
    cbn in Ha. discriminate.
  - rewrite !append_cons in Heq. injection Heq as -> Heq.
    cbn in Ha, Hb. apply andb_prop in Ha as [_ Ha], Hb as [_ Hb].
    destruct (IH b Ha Hb Heq) as [-> ->]. done.
Qed.

(** X20. A redemption code determines the time it was made at and its
    suffix: two codes made at clock readings that are not negative are
    equal only if the readings are equal and the suffixes are; so two
    redemptions in different milliseconds never get the same code. *)
Theorem redemptionCode_inj now1 random1 now2 random2 :
  0 ≤ now1 → 0 ≤ now2 →
  redemptionCode now1 random1 = redemptionCode now2 random2 →
  now1 = now2
  ∧ toUpperCase (substr 2 6 random1) = toUpperCase (substr 2 6 random2).
Proof.
  intros Hnow1 Hnow2 Hcodes. unfold redemptionCode in Hcodes.
  apply (f_equal (string_drop 4)) in Hcodes.
  change (number_to_string now1 +:+ String "-" (toUpperCase (substr 2 6 random1))
          = number_to_string now2
            +:+ String "-" (toUpperCase (substr 2 6 random2))) in Hcodes.
  apply split_at_hyphen in Hcodes as [Htime Hsuffix];
    try by apply number_to_string_digits.
  split; [by apply number_to_string_inj | exact Hsuffix].
Qed.

Lemma redemptionCode_inj_witness :
  redemptionCode 1700000000000 "0.4fzyo82mvyr"
  ≠ redemptionCode 1700000000001 "0.4fzyo82mvyr".
Proof.
  intros Hsame.
  destruct (redemptionCode_inj 1700000000000 "0.4fzyo82mvyr"
              1700000000001 "0.4fzyo82mvyr") as [Htime _];
    [lia | lia | exact Hsame | discriminate Htime].
Defined.

(** ** Challenges, reports and events *)

(** X21. [getActiveChallenges] returns exactly the active challenges, in
    the order of their end dates, those without an end date last. *)
Theorem getActiveChallenges_by_end_date db :
  ∃ result,
    getActiveChallenges db = (Returned result, db)
    ∧ (∀ c, c ∈ result ↔ c ∈ ecoChallenges db ∧ EcoChallenge.isActive c = true)
    ∧ result ≡ₚ List.filter EcoChallenge.isActive (ecoChallenges db)
    ∧ StronglySorted (ascending EcoChallenge.endDate) result.
Proof.
  eexists. split; [reflexivity|]. split; [|split].
  - intros c. by rewrite order_by_permutation, elem_of_filter_bool.
  - apply order_by_permutation.
  - apply order_by_sorted.
Qed.

(** X22. A report can be addressed by the id [createCommunityReport]
    returns: the new report carries the given status, or the default one
    when none is given, and no resolution time; and
    [updateCommunityReportStatus] on its id with 'resolved' returns that
    report, with its text unchanged, resolved at the time of the call. *)
Theorem createCommunityReport_then_resolve dflt created_at report now db :
  ∃ created resolved,
    (createCommunityReport dflt created_at report db).1 = Returned created
    ∧ CommunityReport.status created
      = or_default (InsertCommunityReport.status report)
                   (communityReport_status dflt)
    ∧ CommunityReport.resolvedAt created = None
    ∧ (updateCommunityReportStatus now (CommunityReport.id created) "resolved"
         (createCommunityReport dflt created_at report db).2).1
      = Returned (Some resolved)
    ∧ CommunityReport.id resolved = CommunityReport.id created
    ∧ CommunityReport.description resolved
      = InsertCommunityReport.description report
    ∧ CommunityReport.location resolved = InsertCommunityReport.location report
    ∧ CommunityReport.status resolved = Some "resolved"
    ∧ CommunityReport.resolvedAt resolved = Some now.
Proof.
  unfold createCommunityReport, insert_serial. cbn [fst snd].
  set (created := {| CommunityReport.id := next_id _ |}).
  eexists created, _. split; [reflexivity|].
  split; [reflexivity|]. split; [reflexivity|].
  unfold updateCommunityReportStatus, bind, update_where, ret. cbn [fst snd].
  cbn [communityReports with_communityReports].
  rewrite (filter_serial_insert CommunityReport.id (communityReports db) created)
    by reflexivity.
  cbn. repeat split.
Qed.

(** X23. An event can be joined under the id [createCleanupEvent] returns:
    the created event is listed by [getUpcomingCleanupEvents] exactly when
    its status is 'upcoming' and its date is not before the clock reading,
    and a [joinCleanupEvent] on its id adds one to the count it was created
    with. *)
Theorem createCleanupEvent_then_join dflt event now joined_at userId db :
  let db1 := (createCleanupEvent dflt event db).2 in
  ∃ created upcoming,
    (createCleanupEvent dflt event db).1 = Returned created
    ∧ event_row (CleanupEvent.id created) db1 = Some created
    ∧ CleanupEvent.currentParticipants created
      = or_default (InsertCleanupEvent.currentParticipants event)
                   (cleanupEvent_currentParticipants dflt)
    ∧ getUpcomingCleanupEvents now db1 = (Returned upcoming, db1)
    ∧ (created ∈ upcoming ↔
       CleanupEvent.status created = Some "upcoming"
       ∧ now ≤ InsertCleanupEvent.eventDate event)
    ∧ CleanupEvent.currentParticipants
        <$> event_row (CleanupEvent.id created)
              (joinCleanupEvent dflt joined_at (CleanupEvent.id created)
                 userId db1).2
      = Some (sql_add (CleanupEvent.currentParticipants created) 1).
Proof.
  cbn zeta. unfold createCleanupEvent, insert_serial. cbn [fst snd].
  set (created := {| CleanupEvent.id := next_id _ |}).
  assert (Hrow : event_row (CleanupEvent.id created)
                   (with_cleanupEvents (cleanupEvents db ++ [created]) db)
                 = Some created).
  { unfold event_row. cbn [cleanupEvents with_cleanupEvents].
    by rewrite (filter_serial_insert CleanupEvent.id (cleanupEvents db) created). }
  eexists created, _. split; [reflexivity|]. split; [exact Hrow|].
  split; [reflexivity|]. split; [reflexivity|]. split.
  - rewrite order_by_permutation, elem_of_filter_bool.
    cbn [cleanupEvents with_cleanupEvents].
    rewrite andb_true_iff, Z.leb_le. unfold sql_eq_string.
    split.
    + intros (_ & Hstatus & Hdate). split; [|exact Hdate].
      destruct (CleanupEvent.status created) as [status|]; [|discriminate].
      by apply String.eqb_eq in Hstatus as ->.
    + intros (Hstatus & Hdate). split; [set_solver|].
      rewrite Hstatus. split; [reflexivity | exact Hdate].
  - by rewrite event_row_after_join, Hrow.
Qed.

(** X24. Points earned can be spent. After [createWasteEntry] has credited
    ecoPointsEarned to a user with an integer balance p, a [redeemReward]
    of that user returns exactly when the reward's cost is at most
    p + ecoPointsEarned, and throws "Insufficient EcoPoints" otherwise. *)
Theorem createWasteEntry_then_redeemReward
    dflt created_at entry now random36 rewardId db earned user p reward :
  InsertWasteEntry.ecoPointsEarned entry = Some earned →
  user_row (InsertWasteEntry.userId entry) db = Some user →
  User.ecoPoints user = Some p →
  reward_row rewardId db = Some reward →
  let redeemed :=
    redeemReward dflt now random36 (InsertWasteEntry.userId entry) rewardId
      (createWasteEntry dflt created_at entry db).2 in
  (Reward.ecoPointsCost reward ≤ p + earned →
     ∃ userReward user',
       redeemed.1 = Returned userReward
       ∧ user_row (InsertWasteEntry.userId entry) redeemed.2 = Some user'
       ∧ User.ecoPoints user'
         = Some (p + earned - Reward.ecoPointsCost reward))
  ∧ (p + earned < Reward.ecoPointsCost reward →
     redeemed.1 = Thrown "Insufficient EcoPoints").
Proof.
  intros Hearned Huser Hp Hreward redeemed.
  set (userId := InsertWasteEntry.userId entry) in *.
  set (db1 := (createWasteEntry dflt created_at entry db).2) in *.
  assert (Huser1 : user_row userId db1 = Some (add_ecoPoints earned user)).
  { subst db1. unfold createWasteEntry, bind, insert_serial, update_where, ret.
    cbn [fst snd]. rewrite Hearned, (or_zero_default (Some earned)).
    cbn [default]. fold userId.
    unfold user_row in *. cbn [users with_users with_wasteEntries].
    rewrite filter_update_rows_same by reflexivity.
    destruct (List.filter _ (users db)) as [|first rest]; [discriminate|].
    cbn in *. by injection Huser as ->. }
  assert (Hreward1 : reward_row rewardId db1 = Some reward) by exact Hreward.
  assert (Hbalance : or_zero (User.ecoPoints (add_ecoPoints earned user))
                     = p + earned).
  { cbn -[or_zero]. rewrite Hp. apply (or_zero_default (Some (p + earned))). }
  subst redeemed. rewrite redeemReward_run, Hreward1, Huser1, Hbalance. split.
  - intros Henough. apply Z.ltb_ge in Henough. rewrite Henough. cbn zeta.
    eexists _, (sub_ecoPoints (Reward.ecoPointsCost reward)
                  (add_ecoPoints earned user)).
    split; [reflexivity|]. cbn [fst snd]. split.
    + match goal with
      | |- user_row userId (with_userRewards ?t ?d) = _ =>
          change (user_row userId (with_userRewards t d)) with (user_row userId d)
      end.
      rewrite user_row_after_update by reflexivity. by rewrite Huser1.
    + cbn. by rewrite Hp.
  - intros Hlow. apply Z.ltb_lt in Hlow. by rewrite Hlow.
Qed.

Lemma createWasteEntry_then_redeemReward_witness :
  ∃ userReward user',
    (redeemReward sample_defaults 1700000000000 "0.4fzyo82mvyr" "bob" 1
       (createWasteEntry sample_defaults 3000
          {| InsertWasteEntry.userId := "bob";
             InsertWasteEntry.wasteType := "glass";
             InsertWasteEntry.quantity := "9";
             InsertWasteEntry.ecoPointsEarned := Some 45 |} sample_db).2).1
    = Returned userReward
    ∧ user_row "bob"
        (redeemReward sample_defaults 1700000000000 "0.4fzyo82mvyr" "bob" 1
           (createWasteEntry sample_defaults 3000
              {| InsertWasteEntry.userId := "bob";
                 InsertWasteEntry.wasteType := "glass";
                 InsertWasteEntry.quantity := "9";
                 InsertWasteEntry.ecoPointsEarned := Some 45 |} sample_db).2).2
      = Some user'
    ∧ User.ecoPoints user' = Some 5.
Proof.
  destruct (createWasteEntry_then_redeemReward sample_defaults 3000
              {| InsertWasteEntry.userId := "bob";
                 InsertWasteEntry.wasteType := "glass";
                 InsertWasteEntry.quantity := "9";
                 InsertWasteEntry.ecoPointsEarned := Some 45 |}
              1700000000000 "0.4fzyo82mvyr" 1 sample_db 45 bob 10 _
              eq_refl eq_refl eq_refl eq_refl) as (Hspend & _).
  apply Hspend. cbn. lia.
Defined.

(** X25. After [createWasteEntry], [getUserWasteEntries] of the entry's
    user lists the returned entry, once, together with the entries it
    listed before, which do not include it; it carries the user, type and
    quantity that were given. *)
Theorem createWasteEntry_then_getUserWasteEntries dflt now entry db :
  let userId := InsertWasteEntry.userId entry in
  let db' := (createWasteEntry dflt now entry db).2 in
  ∃ wasteEntry before after,
    (createWasteEntry dflt now entry db).1 = Returned wasteEntry
    ∧ getUserWasteEntries userId db = (Returned before, db)
    ∧ getUserWasteEntries userId db' = (Returned after, db')
    ∧ after ≡ₚ wasteEntry :: before
    ∧ (wasteEntry ∉ before)
    ∧ WasteEntry.userId wasteEntry = userId
    ∧ WasteEntry.wasteType wasteEntry = InsertWasteEntry.wasteType entry
    ∧ WasteEntry.quantity wasteEntry = InsertWasteEntry.quantity entry.
Proof.
  cbn zeta.
  unfold createWasteEntry, bind, insert_serial, update_where, ret.
  cbn [fst snd].
  set (row := {| WasteEntry.id := next_id _ |}).
  eexists row, _, _. split; [reflexivity|]. split; [reflexivity|].
  split; [reflexivity|]. split; [|split; [|by repeat split]].
  - rewrite !order_by_desc_permutation.
    cbn [wasteEntries with_users with_wasteEntries].
    rewrite List.filter_app. cbn. rewrite String.eqb_refl.
    by rewrite Permutation_app_comm.
  - rewrite order_by_desc_permutation, elem_of_filter_bool.
    intros [Hin _].
    assert (Hid : WasteEntry.id row < next_id (WasteEntry.id <$> wasteEntries db)).
    { apply next_id_fresh, list_elem_of_fmap. eauto. }
    cbn in Hid. lia.
Qed.


